(** * openmct-yamcs: the dictionary builder and the realtime subscription engine

    A shallow embedding of [src/providers/object-provider.js]
    (class [YamcsObjectProvider]) and
    [src/providers/realtime-telemetry-provider.js]
    (class [RealtimeTelemetryProvider]), and the properties of the
    specification that are settled on them.

    JavaScript objects that are shared and mutated ([rootObject], the folder
    an aggregate parameter becomes) live in an explicit heap; the plain
    object [this.objects] used as a dictionary is a finite map from keys to
    heap locations.  Promises are modelled by the events that settle them.

    Numbers are the integers they denote (the counters stay far below
    2^53).  The keys of the plain objects used as maps are taken not to
    name a member of [Object.prototype]: the identifiers of the catalog
    come from qualified names, which begin with the path separator.  The
    callbacks of the host return normally and do not call back into the
    provider.  [supportsSubscribe] and its table of supported types are
    left out: no property below concerns them. *)

From Stdlib Require Import ZArith String Ascii List Lia.
From stdpp Require Import base option list gmap strings pretty.
Import ListNotations.

Open Scope string_scope.
Open Scope list_scope.

(** ** JavaScript built-ins used by the two providers *)

(** [s.lastIndexOf(c)] for a one-character needle: the index of the last
    occurrence, or -1.  Indices count the units of the string model; the
    needle of the source is the ASCII slash, so the prefix cut at it
    is the same in any encoding. *)
Fixpoint lastIndexOf_from (c : ascii) (s : string) (i found : Z) : Z :=
  match s with
  | EmptyString => found
  | String a s' =>
      lastIndexOf_from c s' (i + 1) (if Ascii.eqb a c then i else found)
  end.

Definition lastIndexOf (s : string) (c : ascii) : Z :=
  lastIndexOf_from c s 0 (-1).

(** [s.substring(0, e)]: a negative end is read as 0, an end past the
    string as its length. *)
Definition substring0 (s : string) (e : Z) : string :=
  String.substring 0 (Z.to_nat e) s.

(** [Array.prototype.sort(comparefn)].  The sort is stable (ECMAScript
    2019): [insert_by] puts an element in front of the first one it does
    not compare greater than, which is what every stable algorithm yields
    for a comparator that is a consistent ordering.  A comparator result
    that is [undefined] is read by the sort as +0. *)
Fixpoint insert_by {A} (cmp : A -> A -> Z) (x : A) (l : list A) : list A :=
  match l with
  | [] => [x]
  | y :: l' => if (0 <? cmp x y)%Z then y :: insert_by cmp x l' else x :: l
  end.

Fixpoint sort_by {A} (cmp : A -> A -> Z) (l : list A) : list A :=
  match l with
  | [] => []
  | x :: l' => insert_by cmp x (sort_by cmp l')
  end.

(** Own property keys of a plain object, as [Object.keys] lists them:
    array indices (canonical decimal strings below 2^32 - 1) in
    ascending order first, the other keys in the order of creation. *)
Definition digit (a : ascii) : option N :=
  let n := N_of_ascii a in
  if ((48 <=? n) && (n <=? 57))%N then Some (n - 48)%N else None.

Fixpoint decimal (s : string) (acc : N) : option N :=
  match s with
  | EmptyString => Some acc
  | String a s' =>
      match digit a with
      | Some d => decimal s' (10 * acc + d)%N
      | None => None
      end
  end.

Definition arrayIndex (s : string) : option N :=
  match s with
  | EmptyString => None
  | String a s' =>
      if Ascii.eqb a "0" then (if String.eqb s' "" then Some 0%N else None)
      else match decimal s 0 with
           | Some n => if (n <? 4294967295)%N then Some n else None
           | None => None
           end
  end.

Definition indexOrder (a b : string) : Z :=
  match arrayIndex a, arrayIndex b with
  | Some m, Some n => (Z.of_N m - Z.of_N n)%Z
  | _, _ => 0%Z
  end.

Definition ownKeys {V} (o : list (string * V)) : list string :=
  let ks := map fst o in
  sort_by indexOrder (List.filter (fun k => bool_decide (is_Some (arrayIndex k))) ks)
  ++ List.filter (fun k => negb (bool_decide (is_Some (arrayIndex k)))) ks.

(** [o[k]] on a plain object kept as a list of own properties. *)
Fixpoint getProperty {V} (o : list (string * V)) (k : string) : option V :=
  match o with
  | [] => None
  | (k', v) :: o' => if String.eqb k' k then Some v else getProperty o' k
  end.

(** [o[k] = v]: an existing property keeps its place, a new one goes last. *)
Fixpoint setProperty {V} (o : list (string * V)) (k : string) (v : V)
  : list (string * V) :=
  match o with
  | [] => [(k, v)]
  | (k', v') :: o' =>
      if String.eqb k' k then (k', v) :: o' else (k', v') :: setProperty o' k v
  end.

(** [delete o[k]]. *)
Fixpoint deleteProperty {V} (o : list (string * V)) (k : string)
  : list (string * V) :=
  match o with
  | [] => []
  | (k', v') :: o' =>
      if String.eqb k' k then deleteProperty o' k
      else (k', v') :: deleteProperty o' k
  end.

(** The names of the members of [Object.prototype] (ECMAScript 2023,
    20.1.3 and B.2.2).  The read [o[k]] of a plain object that has no own
    property [k] yields the member of that name where there is one:
    [getProperty], and the lookup in a finite map, are the read of the
    own properties, and are the read [o[k]] for every key that is not
    such a name. *)
Definition objectPrototype : list string :=
  ["constructor"; "__defineGetter__"; "__defineSetter__"; "hasOwnProperty";
   "__lookupGetter__"; "__lookupSetter__"; "isPrototypeOf";
   "propertyIsEnumerable"; "toString"; "valueOf"; "__proto__";
   "toLocaleString"].

Definition inherited (k : string) : bool :=
  existsb (String.eqb k) objectPrototype.

(** Values read from [JSON.parse]. *)
#[local] Set Warnings "-register-all".
Inductive json : Type :=
| JNull
| JBool (b : bool)
| JNum (n : Z)
| JStr (s : string)
| JArr (elements : list json)
| JObj (members : list (string * json)).

(** What the running program can raise. *)
Inductive exn : Type :=
| TypeError
| InvalidStateError
| FetchError (reason : string).

Inductive outcome (A : Type) : Type :=
| Returned (a : A)
| Threw (e : exn).
Arguments Returned {A} a.
Arguments Threw {A} e.

(** ** What the providers import

    The helpers of [utils.js] and the constants of [const.js] are not
    among the files verified here, and [String.prototype.localeCompare]
    depends on the locale of the host.  The providers are modelled over
    any choice of them; a helper that is more than a text substitution
    may throw. *)
Class Imports : Type := {
  qualifiedNameToId : string -> string;
  idToQualifiedName : string -> string;
  getValue : option json -> outcome (option json);
  addLimitInformation : json -> outcome (list (string * json));
  TELEMETRY_OBJECT_TYPE : string;
  IMAGE_OBJECT_TYPE : string;
  STRING_OBJECT_TYPE : string;
  localeCompare : string -> string -> Z
}.

(** ** The metadata records of the upstream API *)

Record Alias : Type := {
  a_namespace : string;
  a_name : string
}.

(** A parameter record.  The members of an aggregate type are records of
    the same shape (their [qualifiedName] is not read: the builder
    derives it from the parent's). *)
Inductive ParameterInfo : Type :=
  mkParameter {
    p_name : string;
    p_qualifiedName : string;
    p_alias : option (list Alias);
    p_type : option ParameterType
  }
with ParameterType : Type :=
  mkParameterType {
    engType : option string;
    member : option (list ParameterInfo)
  }.

Record SubSystem : Type := {
  sub_name : string;
  sub_qualifiedName : string
}.

Record SpaceSystem : Type := {
  ss_name : string;
  ss_qualifiedName : string;
  sub : option (list SubSystem)
}.

(** The body of the [parameters] response. *)
Record ParametersResponse : Type := {
  parameters : option (list ParameterInfo)
}.

(** ** The objects of the catalog *)

Record Identifier : Type := {
  key : string;
  namespace : string
}.

Record ValueMetadata : Type := {
  v_key : string;
  v_source : option string;
  v_name : string;
  v_format : option string;
  v_hints : list (string * Z)
}.

Record DomainObject : Type := {
  identifier : Identifier;
  name : string;
  type : string;
  location : option string;
  composition : option (list Identifier);
  telemetry : option (list ValueMetadata)
}.

Definition loc : Type := nat.

(** The one value [this.dictionary] ever receives is the object
    [this.objects] itself. *)
Inductive dictionaryRef : Type := ThisObjects.

(** A catalog lookup waiting for the dictionary: the label of the promise
    [get] returned, and the key it will read. *)
Record Lookup : Type := {
  caller : nat;
  lookupKey : string
}.

Inductive Stage : Type :=
| AwaitSpaceSystems
| AwaitParameters (spaceSystems : list SpaceSystem).

(** [this.dictionaryPromise] when it is not [undefined]: the shared build
    promise with the lookups chained on it, or the same promise once it
    has been rejected. *)
Inductive BuildPromise : Type :=
| Pending (stage : Stage) (awaiting : list Lookup)
| Rejected (e : exn).

Inductive Settlement : Type :=
| Resolved (node : option DomainObject)
| Failed (e : exn).

Inductive Request : Type :=
| AccumulateResults (url field : string)
| Fetch (url : string).

Record YamcsObjectProvider : Type := {
  url : string;
  instance : string;
  folderName : string;
  dictionary : option dictionaryRef;
  objects : gmap string loc;
  dictionaryPromise : option BuildPromise;
  rootObject : loc;
  (* the objects allocated so far, by location *)
  heap : list DomainObject;
  (* the requests issued upstream so far, oldest first *)
  upstream : list Request;
  (* the promises returned by [get] that have settled, oldest first *)
  settled : list (nat * Settlement)
}.

Definition taxonomy : string := "taxonomy".

(** ** Statements that mutate the provider and may throw *)

Definition Act (A : Type) : Type :=
  YamcsObjectProvider -> outcome A * YamcsObjectProvider.

Definition ret {A} (a : A) : Act A := fun s => (Returned a, s).

Definition throw {A} (e : exn) : Act A := fun s => (Threw e, s).

Definition bind {A B} (c : Act A) (k : A -> Act B) : Act B :=
  fun s =>
    match c s with
    | (Returned a, s') => k a s'
    | (Threw e, s') => (Threw e, s')
    end.

Notation "x <- c ;; k" := (bind c (fun x => k))
  (at level 100, c at next level, right associativity).
Notation "c ;;; k" := (bind c (fun _ => k))
  (at level 100, right associativity).

Definition modify (f : YamcsObjectProvider -> YamcsObjectProvider) : Act unit :=
  fun s => (Returned tt, f s).

(** [array.forEach(f)]: an exception leaves the loop. *)
Definition forEach {A} (f : A -> Act unit) : list A -> Act unit :=
  fix go (l : list A) : Act unit :=
    match l with
    | [] => ret tt
    | x :: l' => f x ;;; go l'
    end.

Definition set_objects (f : gmap string loc -> gmap string loc)
    (s : YamcsObjectProvider) : YamcsObjectProvider :=
  {| url := url s; instance := instance s; folderName := folderName s;
     dictionary := dictionary s; objects := f (objects s);
     dictionaryPromise := dictionaryPromise s; rootObject := rootObject s;
     heap := heap s; upstream := upstream s; settled := settled s |}.

Definition set_heap (f : list DomainObject -> list DomainObject)
    (s : YamcsObjectProvider) : YamcsObjectProvider :=
  {| url := url s; instance := instance s; folderName := folderName s;
     dictionary := dictionary s; objects := objects s;
     dictionaryPromise := dictionaryPromise s; rootObject := rootObject s;
     heap := f (heap s); upstream := upstream s; settled := settled s |}.

Definition set_dictionary (d : option dictionaryRef)
    (s : YamcsObjectProvider) : YamcsObjectProvider :=
  {| url := url s; instance := instance s; folderName := folderName s;
     dictionary := d; objects := objects s;
     dictionaryPromise := dictionaryPromise s; rootObject := rootObject s;
     heap := heap s; upstream := upstream s; settled := settled s |}.

Definition set_dictionaryPromise (p : option BuildPromise)
    (s : YamcsObjectProvider) : YamcsObjectProvider :=
  {| url := url s; instance := instance s; folderName := folderName s;
     dictionary := dictionary s; objects := objects s;
     dictionaryPromise := p; rootObject := rootObject s;
     heap := heap s; upstream := upstream s; settled := settled s |}.

Definition request (r : Request)
    (s : YamcsObjectProvider) : YamcsObjectProvider :=
  {| url := url s; instance := instance s; folderName := folderName s;
     dictionary := dictionary s; objects := objects s;
     dictionaryPromise := dictionaryPromise s; rootObject := rootObject s;
     heap := heap s; upstream := upstream s ++ [r]; settled := settled s |}.

Definition settle (c : nat) (r : Settlement)
    (s : YamcsObjectProvider) : YamcsObjectProvider :=
  {| url := url s; instance := instance s; folderName := folderName s;
     dictionary := dictionary s; objects := objects s;
     dictionaryPromise := dictionaryPromise s; rootObject := rootObject s;
     heap := heap s; upstream := upstream s; settled := settled s ++ [(c, r)] |}.

(** An object literal: a fresh object at the next location. *)
Definition new (o : DomainObject) : Act loc :=
  fun s => (Returned (length (heap s)), set_heap (fun h => h ++ [o]) s).

(** [parent.composition.push(id)].  Reading [composition] of [undefined]
    throws, and so does calling [push] on the [undefined] that an object
    without [composition] yields. *)
Definition pushComposition (parent : option loc) (id : Identifier) : Act unit :=
  fun s =>
    match parent with
    | None => (Threw TypeError, s)
    | Some l =>
        match heap s !! l with
        | None => (Threw TypeError, s)
        | Some o =>
            match composition o with
            | None => (Threw TypeError, s)
            | Some c =>
                (Returned tt,
                 set_heap (fun h =>
                   <[l := {| identifier := identifier o; name := name o;
                             type := type o; location := location o;
                             composition := Some (c ++ [id]);
                             telemetry := telemetry o |}]> h) s)
            end
        end
    end.

(** ** object-provider.js: class YamcsObjectProvider *)

Section ObjectProvider.
Context `{Imports}.

(** [addObject(object)]: [this.objects[object.identifier.key] = object]. *)
Definition addObject (o : loc) : Act unit :=
  fun s =>
    match heap s !! o with
    | Some obj => (Returned tt, set_objects <[key (identifier obj) := o]> s)
    | None => (Threw TypeError, s)
    end.

Definition createRootObject (s : YamcsObjectProvider) : YamcsObjectProvider :=
  let root := length (heap s) in
  let s1 :=
    set_heap (fun h => h ++
      [{| identifier := {| key := "spacecraft"; namespace := taxonomy |};
          name := folderName s;
          type := "folder";
          location := Some "ROOT";
          composition := Some [];
          telemetry := None |}]) s in
  let s2 :=
    {| url := url s1; instance := instance s1; folderName := folderName s1;
       dictionary := dictionary s1; objects := objects s1;
       dictionaryPromise := dictionaryPromise s1; rootObject := root;
       heap := heap s1; upstream := upstream s1; settled := settled s1 |} in
  snd (addObject root s2).

Definition constructor (url instance folderName : string) : YamcsObjectProvider :=
  createRootObject
    {| url := url; instance := instance; folderName := folderName;
       dictionary := None; objects := ∅; dictionaryPromise := None;
       rootObject := 0; heap := []; upstream := []; settled := [] |}.

Definition getMdbUrl (s : YamcsObjectProvider) (operation name : string) : string :=
  url s +:+ "api/mdb/" +:+ instance s +:+ "/" +:+ operation +:+ name.

Definition addSpaceSystem (spaceSystem : SpaceSystem) : Act unit :=
  if negb (String.eqb (ss_qualifiedName spaceSystem) "/") then
    let composition :=
      match sub spaceSystem with
      | Some subs =>
          map (fun sub =>
                 {| key := qualifiedNameToId (sub_qualifiedName sub);
                    namespace := taxonomy |})
              (sort_by (fun a b => localeCompare (sub_name a) (sub_name b)) subs)
      | None => []
      end in
    let id := qualifiedNameToId (ss_qualifiedName spaceSystem) in
    obj <- new {| identifier := {| key := id; namespace := taxonomy |};
                  name := ss_name spaceSystem;
                  type := "folder";
                  location := None;
                  composition := Some composition;
                  telemetry := None |} ;;
    addObject obj ;;;
    if (lastIndexOf (ss_qualifiedName spaceSystem) "/" =? 0)%Z then
      fun s => pushComposition (Some (rootObject s))
                 {| key := id; namespace := taxonomy |} s
    else ret tt
  else ret tt.

Definition isSuppressed (parameter : ParameterInfo) : bool :=
  match p_alias parameter with
  | Some aliases =>
      existsb (fun alias => String.eqb (a_namespace alias) "OpenMCT:omit") aliases
  | None => false
  end.

Definition getParameterType (parameter : ParameterInfo) : string :=
  let override :=
    match p_alias parameter with
    | Some aliases =>
        List.find (fun alias => String.eqb (a_namespace alias) "OpenMCT:type") aliases
    | None => None
    end in
  match override with
  | Some alias => a_name alias
  | None =>
      match p_type parameter with
      | None => TELEMETRY_OBJECT_TYPE
      | Some t =>
          if bool_decide (engType t = Some "integer")
             || bool_decide (engType t = Some "float")
          then TELEMETRY_OBJECT_TYPE
          else STRING_OBJECT_TYPE
      end
  end.

Definition isAggregate (parameter : ParameterInfo) : bool :=
  match p_type parameter with
  | Some t => bool_decide (engType t = Some "aggregate")
  | None => false
  end.

(** The [telemetry.values] of a leaf of the given type, after the
    adjustment for strings and images. *)
Definition telemetryValues (type : string) : list ValueMetadata :=
  let value :=
    {| v_key := "value"; v_source := None; v_name := "Value";
       v_format := None; v_hints := [("range", 1%Z)] |} in
  let utc :=
    {| v_key := "utc"; v_source := Some "timestamp"; v_name := "Timestamp";
       v_format := Some "iso"; v_hints := [("domain", 1%Z)] |} in
  if String.eqb type STRING_OBJECT_TYPE then
    [ {| v_key := v_key value; v_source := v_source value;
         v_name := v_name value; v_format := v_format value;
         v_hints := [] |}; utc ]
  else if String.eqb type IMAGE_OBJECT_TYPE then
    [ {| v_key := v_key value; v_source := v_source value;
         v_name := v_name value; v_format := Some "image";
         v_hints := [("image", 1%Z)] |}; utc ]
  else [ value; utc ].

Fixpoint addParameter (parameter : ParameterInfo) (qualifiedName : string)
    (parent : option loc) (prefix : string) {struct parameter} : Act unit :=
  let id := qualifiedNameToId qualifiedName in
  let name := prefix +:+ p_name parameter in
  let ident := {| key := id; namespace := taxonomy |} in
  obj <- new (if isAggregate parameter then
                {| identifier := ident; name := name; type := "folder";
                   location := None; composition := Some [];
                   telemetry := None |}
              else
                {| identifier := ident; name := name;
                   type := getParameterType parameter;
                   location := None; composition := None;
                   telemetry :=
                     Some (telemetryValues (getParameterType parameter)) |}) ;;
  addObject obj ;;;
  pushComposition parent ident ;;;
  if isAggregate parameter then
    match p_type parameter with
    | Some t =>
        match member t with
        | Some members =>
            forEach (fun m =>
                       addParameter m (qualifiedName +:+ "." +:+ p_name m)
                         (Some obj) (name +:+ "_"))
                    members
        | None => ret tt
        end
    | None => ret tt
    end
  else ret tt.

Definition addParameterObject (parameter : ParameterInfo) : Act unit :=
  if negb (isSuppressed parameter) then
    let qn := p_qualifiedName parameter in
    let lastSlashPos := lastIndexOf qn "/" in
    let parentId := qualifiedNameToId (substring0 qn lastSlashPos) in
    fun s => addParameter parameter qn (objects s !! parentId) "" s
  else ret tt.

(** The callback of [fetchTelemetryDictionary] that runs once both
    collections have arrived.  The comparator passed to the first sort is
    an arrow function whose block has no [return]: it yields
    [undefined]. *)
Definition buildDictionary (spaceSystems : list SpaceSystem)
    (response : ParametersResponse) : Act dictionaryRef :=
  forEach addSpaceSystem (sort_by (fun _ _ => 0%Z) spaceSystems) ;;;
  match parameters response with
  | Some ps => forEach addParameterObject ps
  | None => ret tt
  end ;;;
  modify (set_dictionaryPromise None) ;;;
  ret ThisObjects.

(** [dictionary[identifier.key]], read through the reference: the read of
    the own properties, which is the read of the program for a key that
    names no member of [Object.prototype] (see [inherited]). *)
Definition dereference (d : dictionaryRef) (s : YamcsObjectProvider)
    (k : string) : option DomainObject :=
  match d with
  | ThisObjects => objects s !! k ≫= fun l => heap s !! l
  end.

(** A lookup chained on the build promise, run when the promise is
    fulfilled: [getTelemetryDictionary]'s callback stores the dictionary,
    [get]'s callback reads the key. *)
Definition fulfil (d : dictionaryRef) (w : Lookup)
    (s : YamcsObjectProvider) : YamcsObjectProvider :=
  let s' := set_dictionary (Some d) s in
  settle (caller w) (Resolved (dereference d s' (lookupKey w))) s'.

Definition reject (e : exn) (w : Lookup)
    (s : YamcsObjectProvider) : YamcsObjectProvider :=
  settle (caller w) (Failed e) s.

Definition fetchTelemetryDictionary (w : Lookup)
    (s : YamcsObjectProvider) : YamcsObjectProvider :=
  match dictionaryPromise s with
  | None =>
      set_dictionaryPromise (Some (Pending AwaitSpaceSystems [w]))
        (request (AccumulateResults (getMdbUrl s "space-systems" "") "spaceSystems") s)
  | Some (Pending stage ws) =>
      set_dictionaryPromise (Some (Pending stage (ws ++ [w]))) s
  | Some (Rejected e) => reject e w s
  end.

Definition getTelemetryDictionary (w : Lookup)
    (s : YamcsObjectProvider) : YamcsObjectProvider :=
  match dictionary s with
  | Some d => settle (caller w) (Resolved (dereference d s (lookupKey w))) s
  | None => fetchTelemetryDictionary w s
  end.

(** [get(identifier)]; [c] labels the promise it returns. *)
Definition get (c : nat) (identifier : Identifier)
    (s : YamcsObjectProvider) : YamcsObjectProvider :=
  getTelemetryDictionary {| caller := c; lookupKey := key identifier |} s.

(** What happens to a provider: a lookup by the host, or the settling of
    the upstream request in flight. *)
Inductive Event : Type :=
| Get (c : nat) (identifier : Identifier)
| SpaceSystemsFetched (spaceSystems : list SpaceSystem)
| ParametersFetched (response : ParametersResponse)
| FetchFailed (reason : string).

Definition step (s : YamcsObjectProvider) (ev : Event) : YamcsObjectProvider :=
  match ev, dictionaryPromise s with
  | Get c identifier, _ => get c identifier s
  | SpaceSystemsFetched l, Some (Pending AwaitSpaceSystems ws) =>
      set_dictionaryPromise (Some (Pending (AwaitParameters l) ws))
        (request (Fetch (getMdbUrl s "parameters?details=yes&limit=1000" "")) s)
  | ParametersFetched r, Some (Pending (AwaitParameters l) ws) =>
      match buildDictionary l r s with
      | (Returned d, s') => foldl (fun st w => fulfil d w st) s' ws
      | (Threw e, s') =>
          foldl (fun st w => reject e w st)
                (set_dictionaryPromise (Some (Rejected e)) s') ws
      end
  | FetchFailed reason, Some (Pending _ ws) =>
      foldl (fun st w => reject (FetchError reason) w st)
            (set_dictionaryPromise (Some (Rejected (FetchError reason))) s) ws
  | _, _ => s
  end.

Definition run (s : YamcsObjectProvider) (evs : list Event) : YamcsObjectProvider :=
  foldl step s evs.

End ObjectProvider.

(** ** realtime-telemetry-provider.js: class RealtimeTelemetryProvider *)

Definition FALLBACK_AND_WAIT_MS : list Z :=
  [1000; 5000; 5000; 10000; 10000; 30000]%Z.

(** The two requests the provider writes. *)
Inductive Command : Type :=
| Subscribe (name : string)
| Unsubscribe (name : string).

(** One call of [socket.send]: the socket written to (the n-th one the
    provider created), the sequence number in the envelope, the request,
    and whether the socket took it or threw. *)
Record Write : Type := {
  w_socket : nat;
  w_seqNo : nat;
  w_request : Command;
  w_accepted : bool
}.

(** The handle [setTimeout] returned, and whether its timer is still
    due.  [clearTimeout] cancels the timer and leaves the handle. *)
Record Timer : Type := {
  wait : Z;
  armed : bool
}.

(** The callbacks of the host are opaque: each is known by a number. *)
Definition Callback : Type := nat.

Record Point : Type := {
  id : string;
  timestamp : option json;
  value : option json;
  limits : list (string * json)
}.

Record RealtimeTelemetryProvider : Type := {
  rt_url : string;
  rt_instance : string;
  seqNo : nat;
  connected : bool;
  listener : list (string * Callback);
  requests : list Command;
  currentWaitIndex : nat;
  reconnectTimeout : option Timer;
  (* the URLs of the sockets created so far; [this.socket] is the last *)
  sockets : list string;
  (* every call of [socket.send], oldest first *)
  wire : list Write;
  (* the delay of every [setTimeout], oldest first *)
  scheduled : list Z;
  (* every callback invocation, oldest first *)
  delivered : list (Callback * Point)
}.

(** The closure [subscribeToTelemetry] returns, by the variables it
    captures. *)
Record Unsubscriber : Type := {
  u_name : string;
  u_id : string
}.

(** The transport: whether the k-th write of the provider's lifetime is
    taken by the socket. *)
Class Transport : Type := {
  accepts : nat -> bool
}.

Definition quote : string := String (ascii_of_nat 34) "".
Definition newline : string := String (ascii_of_nat 10) "".
Definition indent : string := "                     ".

Definition quoted (s : string) : string := quote +:+ s +:+ quote.

(** The text of a request, as the template literals of [tlmSubscribe] and
    [tlmUnsubscribe] produce it. *)
Definition commandText (c : Command) : string :=
  match c with
  | Subscribe name =>
      "{" +:+ quoted "parameter" +:+ ": " +:+ quoted "subscribe" +:+ "," +:+ newline
      +:+ indent +:+ quoted "data" +:+ ": { " +:+ quoted "id" +:+ ": [{ "
      +:+ quoted "name" +:+ ": " +:+ quoted name +:+ " }]," +:+ newline
      +:+ indent +:+ quoted "sendFromCache" +:+ ": false }}"
  | Unsubscribe name =>
      "{" +:+ quoted "parameter" +:+ ": " +:+ quoted "unsubscribe" +:+ "," +:+ newline
      +:+ indent +:+ quoted "data" +:+ ": { " +:+ quoted "id" +:+ ": [{ "
      +:+ quoted "name" +:+ ": " +:+ quoted name +:+ " }] }}"
  end.

Definition payload (w : Write) : string :=
  "[1, 1, " +:+ pretty (w_seqNo w) +:+ ", " +:+ commandText (w_request w) +:+ "]".

Section Realtime.
Context `{Imports} `{Transport}.

Definition rt_constructor (url instance : string) : RealtimeTelemetryProvider :=
  {| rt_url := url; rt_instance := instance; seqNo := 0; connected := false;
     listener := []; requests := []; currentWaitIndex := 0;
     reconnectTimeout := None; sockets := []; wire := []; scheduled := [];
     delivered := [] |}.

Definition set_connected (b : bool) (s : RealtimeTelemetryProvider)
  : RealtimeTelemetryProvider :=
  {| rt_url := rt_url s; rt_instance := rt_instance s; seqNo := seqNo s;
     connected := b; listener := listener s; requests := requests s;
     currentWaitIndex := currentWaitIndex s;
     reconnectTimeout := reconnectTimeout s; sockets := sockets s;
     wire := wire s; scheduled := scheduled s; delivered := delivered s |}.

Definition set_listener (l : list (string * Callback))
    (s : RealtimeTelemetryProvider) : RealtimeTelemetryProvider :=
  {| rt_url := rt_url s; rt_instance := rt_instance s; seqNo := seqNo s;
     connected := connected s; listener := l; requests := requests s;
     currentWaitIndex := currentWaitIndex s;
     reconnectTimeout := reconnectTimeout s; sockets := sockets s;
     wire := wire s; scheduled := scheduled s; delivered := delivered s |}.

Definition set_requests (l : list Command)
    (s : RealtimeTelemetryProvider) : RealtimeTelemetryProvider :=
  {| rt_url := rt_url s; rt_instance := rt_instance s; seqNo := seqNo s;
     connected := connected s; listener := listener s; requests := l;
     currentWaitIndex := currentWaitIndex s;
     reconnectTimeout := reconnectTimeout s; sockets := sockets s;
     wire := wire s; scheduled := scheduled s; delivered := delivered s |}.

Definition set_currentWaitIndex (i : nat)
    (s : RealtimeTelemetryProvider) : RealtimeTelemetryProvider :=
  {| rt_url := rt_url s; rt_instance := rt_instance s; seqNo := seqNo s;
     connected := connected s; listener := listener s; requests := requests s;
     currentWaitIndex := i;
     reconnectTimeout := reconnectTimeout s; sockets := sockets s;
     wire := wire s; scheduled := scheduled s; delivered := delivered s |}.

Definition set_reconnectTimeout (t : option Timer)
    (s : RealtimeTelemetryProvider) : RealtimeTelemetryProvider :=
  {| rt_url := rt_url s; rt_instance := rt_instance s; seqNo := seqNo s;
     connected := connected s; listener := listener s; requests := requests s;
     currentWaitIndex := currentWaitIndex s;
     reconnectTimeout := t; sockets := sockets s;
     wire := wire s; scheduled := scheduled s; delivered := delivered s |}.

(** [setTimeout(f, ms)] for the reconnect callback. *)
Definition setTimeout (ms : Z)
    (s : RealtimeTelemetryProvider) : RealtimeTelemetryProvider :=
  {| rt_url := rt_url s; rt_instance := rt_instance s; seqNo := seqNo s;
     connected := connected s; listener := listener s; requests := requests s;
     currentWaitIndex := currentWaitIndex s;
     reconnectTimeout := Some {| wait := ms; armed := true |};
     sockets := sockets s; wire := wire s;
     scheduled := scheduled s ++ [ms]; delivered := delivered s |}.

Definition clearTimeout (s : RealtimeTelemetryProvider) : RealtimeTelemetryProvider :=
  match reconnectTimeout s with
  | Some t => set_reconnectTimeout (Some {| wait := wait t; armed := false |}) s
  | None => s
  end.

(** [sendRequest(request)]: the counter is incremented before the write,
    whether the write succeeds or not.  A provider that has no socket
    yet fails on [this.socket.send]. *)
Definition sendRequest (request : Command)
    (s : RealtimeTelemetryProvider) : outcome unit * RealtimeTelemetryProvider :=
  let n := S (seqNo s) in
  let ok := negb (Nat.eqb (length (sockets s)) 0) && accepts (length (wire s)) in
  (if ok then Returned tt
   else Threw (if Nat.eqb (length (sockets s)) 0 then TypeError else InvalidStateError),
   {| rt_url := rt_url s; rt_instance := rt_instance s; seqNo := n;
      connected := connected s; listener := listener s; requests := requests s;
      currentWaitIndex := currentWaitIndex s;
      reconnectTimeout := reconnectTimeout s; sockets := sockets s;
      wire := wire s ++ [{| w_socket := length (sockets s); w_seqNo := n;
                            w_request := request; w_accepted := ok |}];
      scheduled := scheduled s; delivered := delivered s |}).

Definition reconnect (s : RealtimeTelemetryProvider) : RealtimeTelemetryProvider :=
  match reconnectTimeout s with
  | Some _ => s
  | None =>
      let s' := setTimeout (nth (currentWaitIndex s) FALLBACK_AND_WAIT_MS 0%Z) s in
      if Nat.ltb (currentWaitIndex s') (length FALLBACK_AND_WAIT_MS - 1)
      then set_currentWaitIndex (S (currentWaitIndex s')) s'
      else s'
  end.

Definition sendOrQueueRequest (request : Command)
    (s : RealtimeTelemetryProvider) : RealtimeTelemetryProvider :=
  if connected s then
    match sendRequest request s with
    | (Returned _, s') => s'
    | (Threw _, s') =>
        let s1 := set_connected false s' in
        reconnect (set_requests (requests s1 ++ [request]) s1)
    end
  else set_requests (requests s ++ [request]) s.

Definition tlmSubscribe (name : string) := sendOrQueueRequest (Subscribe name).
Definition tlmUnsubscribe (name : string) := sendOrQueueRequest (Unsubscribe name).

(** The [filter] of [flushQueue]: the requests kept, whether a write
    failed, and the provider after the writes. *)
Fixpoint flushing (queue : list Command) (s : RealtimeTelemetryProvider)
  : list Command * bool * RealtimeTelemetryProvider :=
  match queue with
  | [] => ([], false, s)
  | request :: queue' =>
      match sendRequest request s with
      | (Returned _, s') => flushing queue' s'
      | (Threw _, s') =>
          let '(kept, _, s'') := flushing queue' (set_connected false s') in
          (request :: kept, true, s'')
      end
  end.

Definition flushQueue (s : RealtimeTelemetryProvider) : RealtimeTelemetryProvider :=
  let '(kept, shouldReconnect, s') := flushing (requests s) s in
  let s'' := set_requests kept s' in
  if shouldReconnect then reconnect s'' else s''.

Definition subscribeToTelemetry (name id : string)
    (s : RealtimeTelemetryProvider) : Unsubscriber * RealtimeTelemetryProvider :=
  ({| u_name := name; u_id := id |},
   if connected s then tlmSubscribe name s else s).

Definition subscribe (domainObject : DomainObject) (callback : Callback)
    (s : RealtimeTelemetryProvider) : Unsubscriber * RealtimeTelemetryProvider :=
  let id := key (identifier domainObject) in
  let s' := set_listener (setProperty (listener s) id callback) s in
  let name := idToQualifiedName id in
  subscribeToTelemetry name id s'.

(** Calling the closure [subscribeToTelemetry] returned. *)
Definition unsubscribe (u : Unsubscriber)
    (s : RealtimeTelemetryProvider) : RealtimeTelemetryProvider :=
  let s' := tlmUnsubscribe (u_name u) s in
  set_listener (deleteProperty (listener s') (u_id u)) s'.

Definition resubscribeToAll (s : RealtimeTelemetryProvider) : RealtimeTelemetryProvider :=
  foldl (fun st id => tlmSubscribe (idToQualifiedName id) st) s (ownKeys (listener s)).

Definition connect (s : RealtimeTelemetryProvider) : RealtimeTelemetryProvider :=
  if connected s then s
  else
    let wsUrl := rt_url s +:+ "_websocket/" +:+ rt_instance s in
    {| rt_url := rt_url s; rt_instance := rt_instance s; seqNo := 0;
       connected := false; listener := listener s; requests := requests s;
       currentWaitIndex := currentWaitIndex s;
       reconnectTimeout := reconnectTimeout s; sockets := sockets s ++ [wsUrl];
       wire := wire s; scheduled := scheduled s; delivered := delivered s |}.

Definition onopen (s : RealtimeTelemetryProvider) : RealtimeTelemetryProvider :=
  let s1 := clearTimeout s in
  let s2 := set_connected true s1 in
  let s3 := set_currentWaitIndex 0 s2 in
  flushQueue (resubscribeToAll s3).

Definition onerror (s : RealtimeTelemetryProvider) : RealtimeTelemetryProvider :=
  reconnect (set_connected false s).

Definition onclose (s : RealtimeTelemetryProvider) : RealtimeTelemetryProvider :=
  reconnect (set_connected false s).

(** The callback given to [setTimeout]; it runs only while the timer is
    due. *)
Definition timeout (s : RealtimeTelemetryProvider) : RealtimeTelemetryProvider :=
  match reconnectTimeout s with
  | Some t => if armed t then set_reconnectTimeout None (connect s) else s
  | None => s
  end.

(** [v.k] for the property names the handler reads: [undefined] and
    [null] throw, an object yields its member (the last one of that name,
    as [JSON.parse] keeps it) or [undefined], any other value yields
    [undefined]. *)
Definition member_of (v : option json) (k : string) : outcome (option json) :=
  match v with
  | None | Some JNull => Threw TypeError
  | Some (JObj ms) => Returned (getProperty (rev ms) k)
  | Some _ => Returned None
  end.

Definition and_then {A B} (o : outcome A) (k : A -> outcome B) : outcome B :=
  match o with
  | Returned a => k a
  | Threw e => Threw e
  end.

(** The point built from one sample: the object literal, then
    [addLimitInformation(parameter, point)], which adds its annotation to
    the point.  [qualifiedNameToId] works on the text of the name: a
    sample whose [id.name] is not a string makes it throw.  The two
    helpers of [utils.js] may throw as well. *)
Definition readPoint (parameter : json) : outcome Point :=
  and_then (member_of (Some parameter) "id") (fun pid =>
  and_then (member_of pid "name") (fun nm =>
  match nm with
  | Some (JStr n) =>
      and_then (member_of (Some parameter) "generationTimeUTC") (fun ts =>
      and_then (member_of (Some parameter) "engValue") (fun ev =>
      and_then (getValue ev) (fun v =>
      and_then (addLimitInformation parameter) (fun ls =>
      Returned {| id := qualifiedNameToId n;
                  timestamp := ts;
                  value := v;
                  limits := ls |}))))
  | _ => Threw TypeError
  end)).

(** The [forEach] over the samples of a frame: the callbacks invoked, in
    order, and how the loop ended.  A callback is taken to return without
    calling back into the provider.  [this.listener[point.id]] is read
    by the own properties of the listener, which is the read of the
    program for an identifier that names no member of
    [Object.prototype] (see [inherited]). *)
Fixpoint dispatch (s : RealtimeTelemetryProvider) (samples : list json)
  : outcome unit * list (Callback * Point) :=
  match samples with
  | [] => (Returned tt, [])
  | parameter :: samples' =>
      match readPoint parameter with
      | Threw e => (Threw e, [])
      | Returned point =>
          let calls :=
            match getProperty (listener s) (id point) with
            | Some callback => [(callback, point)]
            | None => []
            end in
          let '(r, more) := dispatch s samples' in
          (r, calls ++ more)
      end
  end.

(** [socket.onmessage], on the array [JSON.parse] produced. *)
Definition onmessage (s : RealtimeTelemetryProvider) (data : list json)
  : outcome unit * list (Callback * Point) :=
  if Nat.ltb (length data) 4 then (Returned tt, [])
  else
    match member_of (data !! 3) "dt" with
    | Threw e => (Threw e, [])
    | Returned (Some (JStr dataType)) =>
        if String.eqb dataType "PARAMETER" then
          match and_then (member_of (data !! 3) "data")
                         (fun d => member_of d "parameter") with
          | Threw e => (Threw e, [])
          | Returned (Some (JArr samples)) => dispatch s samples
          | Returned _ => (Threw TypeError, [])
          end
        else (Returned tt, [])
    | Returned _ => (Returned tt, [])
    end.

(** What happens to a provider: a call by the host, an event of the
    socket, or the reconnect timer coming due. *)
Inductive RtEvent : Type :=
| CallSubscribe (domainObject : DomainObject) (callback : Callback)
| CallUnsubscribe (u : Unsubscriber)
| CallConnect
| OnOpen
| OnMessage (data : list json)
| OnError
| OnClose
| TimerDue.

Definition rt_step (s : RealtimeTelemetryProvider) (ev : RtEvent)
  : RealtimeTelemetryProvider :=
  match ev with
  | CallSubscribe o cb => snd (subscribe o cb s)
  | CallUnsubscribe u => unsubscribe u s
  | CallConnect => connect s
  | OnOpen => onopen s
  | OnMessage data =>
      {| rt_url := rt_url s; rt_instance := rt_instance s; seqNo := seqNo s;
         connected := connected s; listener := listener s;
         requests := requests s; currentWaitIndex := currentWaitIndex s;
         reconnectTimeout := reconnectTimeout s; sockets := sockets s;
         wire := wire s; scheduled := scheduled s;
         delivered := delivered s ++ snd (onmessage s data) |}
  | OnError => onerror s
  | OnClose => onclose s
  | TimerDue => timeout s
  end.

Definition rt_run (s : RealtimeTelemetryProvider) (evs : list RtEvent)
  : RealtimeTelemetryProvider :=
  foldl rt_step s evs.

End Realtime.

(** ** A concrete choice of the imports

    Used where a statement is evaluated on a concrete catalog or run. *)

Fixpoint replaceChar (from to : ascii) (s : string) : string :=
  match s with
  | EmptyString => EmptyString
  | String a s' => String (if Ascii.eqb a from then to else a) (replaceChar from to s')
  end.

(** Byte-wise comparison of two strings, standing for the collation of
    the host on unaccented lower-case names, where the two agree. *)
Fixpoint compareBytes (a b : string) : Z :=
  match a, b with
  | EmptyString, EmptyString => 0
  | EmptyString, String _ _ => -1
  | String _ _, EmptyString => 1
  | String x a', String y b' =>
      if Ascii.eqb x y then compareBytes a' b'
      else if (N_of_ascii x <? N_of_ascii y)%N then -1 else 1
  end%Z.

(** Modelled from the spec: [utils.js] and [const.js] are missing.  The
    identifier codec replaces the path separator with a sentinel
    character and back (section 4.1); the three telemetry kinds are the
    names of section 3; the engineering value is passed through as it
    is on the sample, and no limit annotation is added. *)
Definition specImports : Imports := {|
  qualifiedNameToId := replaceChar "/" "~";
  idToQualifiedName := replaceChar "~" "/";
  getValue := fun v => Returned v;
  addLimitInformation := fun _ => Returned [];
  TELEMETRY_OBJECT_TYPE := "numeric-telemetry";
  IMAGE_OBJECT_TYPE := "image-telemetry";
  STRING_OBJECT_TYPE := "string-telemetry";
  localeCompare := compareBytes
|}.

(** A transport that takes every write. *)
Definition reliable : Transport := {| accepts := fun _ => true |}.

(** * Notions used in the statements *)

(** The members an aggregate parameter declares. *)
Definition members (p : ParameterInfo) : list ParameterInfo :=
  match p_type p with
  | Some t => default [] (member t)
  | None => []
  end.

(** Induction on a parameter record through the members of its type. *)
Fixpoint ParameterInfo_members_ind (P : ParameterInfo -> Prop)
    (step : forall p, Forall P (members p) -> P p)
    (p : ParameterInfo) {struct p} : P p :=
  step p
    (match p as p0 return Forall P (members p0) with
     | mkParameter _ _ _ None => List.Forall_nil P
     | mkParameter _ _ _ (Some (mkParameterType _ None)) => List.Forall_nil P
     | mkParameter _ _ _ (Some (mkParameterType _ (Some ms))) =>
         (fix all (l : list ParameterInfo) : Forall P l :=
            match l with
            | [] => List.Forall_nil P
            | m :: l' =>
                @List.Forall_cons _ P m l' (ParameterInfo_members_ind P step m) (all l')
            end) ms
     end).

(** What the build leaves alone: everything but the object store. *)
Definition sameShell (s s' : YamcsObjectProvider) : Prop :=
  url s' = url s /\ instance s' = instance s /\ folderName s' = folderName s
  /\ dictionary s' = dictionary s
  /\ dictionaryPromise s' = dictionaryPromise s
  /\ rootObject s' = rootObject s
  /\ upstream s' = upstream s /\ settled s' = settled s.

Definition keepsShell {A} (a : Act A) : Prop :=
  forall s, sameShell s (snd (a s)).


(** The lookups of several callers, as events. *)
Definition lookups (l : list (nat * Identifier)) : list Event :=
  map (fun ci => Get ci.1 ci.2) l.

(** What each of these callers receives when the lookup is answered from
    the dictionary of [s]. *)
Definition answers (s : YamcsObjectProvider) (l : list (nat * Identifier))
  : list (nat * Settlement) :=
  map (fun ci => (ci.1, Resolved (dereference ThisObjects s (key ci.2)))) l.

Definition failures (e : exn) (l : list (nat * Identifier))
  : list (nat * Settlement) :=
  map (fun ci => (ci.1, Failed e)) l.

Definition waiting (l : list (nat * Identifier)) : list Lookup :=
  map (fun ci => {| caller := ci.1; lookupKey := key ci.2 |}) l.

(** The first entry of [telemetry.values]: the value field of a leaf. *)
Definition valueField (o : DomainObject) : option ValueMetadata :=
  telemetry o ≫= head.

(** Metadata used in the evaluated catalogs. *)
Definition folder (n : string) : SpaceSystem :=
  {| ss_name := n; ss_qualifiedName := "/" +:+ n; sub := None |}.

Definition ident (k : string) : Identifier :=
  {| key := k; namespace := taxonomy |}.

(** One failed connection, as the socket reports it: an error followed
    by the close (a connection that could not be made), or the close
    alone (a connection that was lost); then the reconnect timer comes
    due. *)
Inductive Drop : Type := Refused | Lost.

Definition failure (d : Drop) : list RtEvent :=
  match d with
  | Refused => [OnError; OnClose; TimerDue]
  | Lost => [OnClose; TimerDue]
  end.

Fixpoint consecutiveFailures (ds : list Drop) : list RtEvent :=
  match ds with
  | [] => []
  | d :: ds' => failure d ++ consecutiveFailures ds'
  end.

(** The wait before the reconnect attempt that follows the [k+1]-th
    consecutive failure. *)
Definition backoff (k : nat) : Z := nth (Nat.min k 5) FALLBACK_AND_WAIT_MS 0%Z.

(** The writes made to the [g]-th socket. *)
Definition onSocket (g : nat) (w : list Write) : list Write :=
  List.filter (fun e => Nat.eqb (w_socket e) g) w.

Definition strictlyIncreasing (l : list nat) : Prop :=
  forall i j a b, i < j -> l !! i = Some a -> l !! j = Some b -> a < b.

(** The writes that sending [cmds] one after the other adds to the wire
    of [s] when the socket takes them all. *)
Definition writesFrom (s : RealtimeTelemetryProvider) (cmds : list Command)
  : list Write :=
  imap (fun i c => {| w_socket := length (sockets s);
                      w_seqNo := seqNo s + 1 + i;
                      w_request := c;
                      w_accepted := true |}) cmds.

(** A well-formed sample: its qualified name, and its other members. *)
Definition sample (name : string) (fields : list (string * json)) : json :=
  JObj (fields ++ [("id", JObj [("name", JStr name)])]).

(** A parameter-data message, the fourth element of a delivery frame. *)
Definition parameterData (samples : list json) : json :=
  JObj [("dt", JStr "PARAMETER"); ("data", JObj [("parameter", JArr samples)])].

(** Between the reset of the index by [onopen] and the end of the
    handler, a reconnect is either not scheduled, or scheduled with the
    first wait. *)
Definition freshBackoff (sched : list Z) (s : RealtimeTelemetryProvider) : Prop :=
  (reconnectTimeout s = None /\ currentWaitIndex s = 0 /\ scheduled s = sched)
  \/ (reconnectTimeout s = Some {| wait := 1000; armed := true |}
      /\ scheduled s = sched ++ [1000%Z]).


(** The numbering of the writes: no write is on a socket not yet
    created, the writes on each socket are numbered 1, 2, ... in order,
    and [seqNo] counts the writes on the current socket. *)
Definition numbered (n k : nat) (w : list Write) : Prop :=
  Forall (fun e => w_socket e <= k) w
  /\ (forall g, map w_seqNo (onSocket g w) = seq 1 (length (onSocket g w)))
  /\ n = length (onSocket k w).

Definition wellNumbered (s : RealtimeTelemetryProvider) : Prop :=
  numbered (seqNo s) (length (sockets s)) (wire s).


(** Sending [cmds] one after the other, whatever the socket does. *)
Definition sendAll `{Transport} (cmds : list Command)
    (s : RealtimeTelemetryProvider) : RealtimeTelemetryProvider :=
  foldl (fun st c => (sendRequest c st).2) s cmds.

(** A telemetry point of the host, as [subscribe] receives it. *)
Definition point `{Imports} (k : string) : DomainObject :=
  {| identifier := ident k; name := k; type := TELEMETRY_OBJECT_TYPE;
     location := None; composition := None; telemetry := None |}.


(** ** Notions used for the further properties of the builder *)

(** A location that holds a folder: an object with a [composition]. *)
Definition folderAt (s : YamcsObjectProvider) (l : nat) : Prop :=
  exists o, heap s !! l = Some o /\ is_Some (composition o).

(** The number of objects a parameter becomes: one, and for an aggregate
    those of its members. *)
Fixpoint nodes (p : ParameterInfo) : nat :=
  match p with
  | mkParameter _ _ _ t =>
      S (if isAggregate p then
           match t with
           | Some (mkParameterType _ (Some ms)) =>
               (fix total (l : list ParameterInfo) : nat :=
                  match l with
                  | [] => 0
                  | m :: l' => nodes m + total l'
                  end) ms
           | _ => 0
           end
         else 0)
  end.

(** Every key of the mapping leads to an object that carries this key. *)
Definition keyed (s : YamcsObjectProvider) : Prop :=
  forall k l, objects s !! k = Some l ->
    exists o, heap s !! l = Some o /\ key (identifier o) = k.

Definition keepsKeyed {A} (a : Act A) : Prop :=
  forall s, keyed s -> keyed (snd (a s)).

(** [o] with one more identifier at the end of its composition. *)
Definition withChild (o : DomainObject) (c : list Identifier) (i : Identifier)
  : DomainObject :=
  {| identifier := identifier o; name := name o; type := type o;
     location := location o; composition := Some (c ++ [i]);
     telemetry := telemetry o |}.

(** The object a leaf parameter becomes, and the folder an aggregate
    becomes once its members are listed. *)
Definition leafObject `{Imports} (p : ParameterInfo) (qn prefix : string)
  : DomainObject :=
  {| identifier := ident (qualifiedNameToId qn);
     name := prefix +:+ p_name p;
     type := getParameterType p;
     location := None; composition := None;
     telemetry := Some (telemetryValues (getParameterType p)) |}.

Definition aggregateObject `{Imports} (p : ParameterInfo) (qn prefix : string)
    (children : list Identifier) : DomainObject :=
  {| identifier := ident (qualifiedNameToId qn);
     name := prefix +:+ p_name p;
     type := "folder";
     location := None; composition := Some children;
     telemetry := None |}.

(** A space system that [addSpaceSystem] attaches to the root. *)
Definition attached (ss : SpaceSystem) : bool :=
  negb (String.eqb (ss_qualifiedName ss) "/")
  && (lastIndexOf (ss_qualifiedName ss) "/" =? 0)%Z.

(** A space system that [addSpaceSystem] turns into a folder. *)
Definition listed (ss : SpaceSystem) : bool :=
  negb (String.eqb (ss_qualifiedName ss) "/").

(** The provider once [o] has been allocated, stored under its key, and
    listed as [i] in the folder [po] at [l], whose composition was [c]. *)
Definition added (s : YamcsObjectProvider) (l : nat) (po : DomainObject)
    (c : list Identifier) (o : DomainObject) (i : Identifier)
  : YamcsObjectProvider :=
  set_heap (fun h => <[l := withChild po c i]> h)
    (set_objects <[key (identifier o) := length (heap s)]>
       (set_heap (fun h => h ++ [o]) s)).

(** Storing a list of objects under their keys, one after the other. *)
Definition storeAll (o : gmap string nat) (kls : list (string * nat))
  : gmap string nat :=
  foldl (fun o kl => <[kl.1 := kl.2]> o) o kls.

(** The keys under which a parameter of qualified name [qn] and the
    members of its type, at every level, are stored. *)
Fixpoint ids `{Imports} (p : ParameterInfo) (qn : string) {struct p} : list string :=
  match p with
  | mkParameter _ _ _ t =>
      qualifiedNameToId qn ::
      (if isAggregate p then
         match t with
         | Some (mkParameterType _ (Some ms)) =>
             (fix all (l : list ParameterInfo) : list string :=
                match l with
                | [] => []
                | m :: l' => ids m (qn +:+ "." +:+ p_name m) ++ all l'
                end) ms
         | _ => []
         end
       else [])
  end.

(** What it is for a parameter to be expanded fully under any folder. *)
Definition expands `{Imports} (p : ParameterInfo) : Prop :=
  forall qn prefix (s : YamcsObjectProvider) (l : nat),
  folderAt s l ->
  exists s',
    addParameter p qn (Some l) prefix s = (Returned tt, s')
    /\ length (heap s') = length (heap s) + nodes p
    /\ (forall l', folderAt s l' -> folderAt s' l')
    /\ (forall k, ~ In k (ids p qn) -> objects s' !! k = objects s !! k)
    /\ sameShell s s'.

(** The key under which [addParameterObject] looks for the parent. *)
Definition parentId `{Imports} (p : ParameterInfo) : string :=
  qualifiedNameToId
    (substring0 (p_qualifiedName p) (lastIndexOf (p_qualifiedName p) "/")).

(** The parameters [addParameterObject] does not skip. *)
Definition shown (ps : list ParameterInfo) : list ParameterInfo :=
  List.filter (fun p => negb (isSuppressed p)) ps.

(** The keys of the folders the space systems become. *)
Definition folderIds `{Imports} (spaceSystems : list SpaceSystem) : list string :=
  map (fun x => qualifiedNameToId (ss_qualifiedName x))
      (List.filter listed spaceSystems).

(** The folder a space system becomes. *)
Definition folderObject `{Imports} (x : SpaceSystem) : DomainObject :=
  {| identifier := ident (qualifiedNameToId (ss_qualifiedName x));
     name := ss_name x;
     type := "folder";
     location := None;
     composition :=
       Some match sub x with
            | Some subs =>
                map (fun y => ident (qualifiedNameToId (sub_qualifiedName y)))
                    (sort_by (fun a b => localeCompare (sub_name a) (sub_name b)) subs)
            | None => []
            end;
     telemetry := None |}.

(** Every object of the mapping is a folder. *)
Definition allFolders (s : YamcsObjectProvider) : Prop :=
  forall k l, objects s !! k = Some l -> folderAt s l.

(** Each element of the list stands in [R] to the next one. *)
Fixpoint ordered {A} (R : A -> A -> Prop) (l : list A) : Prop :=
  match l with
  | [] => True
  | x :: l' =>
      match l' with
      | [] => True
      | y :: _ => R x y
      end /\ ordered R l'
  end.

(** The comparator never puts each of two elements of the list after the
    other. *)
Definition decisive {A} (cmp : A -> A -> Z) (l : list A) : Prop :=
  Forall (fun x => Forall (fun y => (0 < cmp x y -> cmp y x <= 0)%Z) l) l.

(** The identifier [addSpaceSystem] derives from a qualified name. *)
Definition folderIdent `{Imports} (qualifiedName : string) : Identifier :=
  ident (qualifiedNameToId qualifiedName).

(** The two requests of a build, in the order in which they are issued. *)
Definition fetchPlan (s0 : YamcsObjectProvider) : list Request :=
  [AccumulateResults (getMdbUrl s0 "space-systems" "") "spaceSystems";
   Fetch (getMdbUrl s0 "parameters?details=yes&limit=1000" "")].

(** How far the one build of a provider created as [s0] has come. *)
Definition fetching (s0 s : YamcsObjectProvider) : Prop :=
  url s = url s0 /\ instance s = instance s0
  /\ match dictionary s, dictionaryPromise s with
     | None, None => upstream s = []
     | None, Some (Pending AwaitSpaceSystems ws) =>
         ws <> [] /\ upstream s = take 1 (fetchPlan s0)
     | None, Some (Pending (AwaitParameters _) ws) =>
         ws <> [] /\ upstream s = fetchPlan s0
     | None, Some (Rejected _) => upstream s `prefix_of` fetchPlan s0
     | Some _, None => upstream s = fetchPlan s0
     | Some _, Some _ => False
     end.

(** ** Notions used for the further properties of the subscription engine *)

(** The provider once the callbacks of a frame have run. *)
Definition deliver `{Imports} (s : RealtimeTelemetryProvider) (data : list json)
  : RealtimeTelemetryProvider :=
  {| rt_url := rt_url s; rt_instance := rt_instance s; seqNo := seqNo s;
     connected := connected s; listener := listener s;
     requests := requests s; currentWaitIndex := currentWaitIndex s;
     reconnectTimeout := reconnectTimeout s; sockets := sockets s;
     wire := wire s; scheduled := scheduled s;
     delivered := delivered s ++ snd (onmessage s data) |}.

(** The callback invocations the points [pts] cause, in order: one for
    each point whose identifier has a callback. *)
Definition deliveries (s : RealtimeTelemetryProvider) (pts : list Point)
  : list (Callback * Point) :=
  omap (fun pt => (fun cb => (cb, pt)) <$> getProperty (listener s) (id pt)) pts.

(** The writes the provider made on its way from [s] to [s']. *)
Definition writesSince (s s' : RealtimeTelemetryProvider) : list Write :=
  drop (length (wire s)) (wire s').

Definition refused (w : Write) : bool := negb (w_accepted w).

(** The host subscribed the callback [cb] under the key [k]. *)
Definition subscribed (evs : list RtEvent) (k : string) (cb : Callback) : Prop :=
  exists o, In (CallSubscribe o cb) evs /\ key (identifier o) = k.

(** The address of every socket of a provider. *)
Definition socketUrl (url instance : string) : string :=
  url +:+ "_websocket/" +:+ instance.

(** A transport that refuses the first write and takes the others. *)
Definition firstRefused : Transport :=
  {| accepts := fun k => negb (Nat.eqb k 0) |}.

(** * Properties of the dictionary builder *)

Lemma sameShell_refl s : sameShell s s.
Proof. repeat split. Qed.

Lemma sameShell_trans s1 s2 s3 :
  sameShell s1 s2 -> sameShell s2 s3 -> sameShell s1 s3.
Proof. unfold sameShell. intuition congruence. Qed.

Lemma keepsShell_ret {A} (a : A) : keepsShell (ret a).
Proof. intros s. apply sameShell_refl. Qed.

Lemma keepsShell_bind {A B} (c : Act A) (k : A -> Act B) :
  keepsShell c -> (forall a, keepsShell (k a)) -> keepsShell (bind c k).
Proof.
  intros Hc Hk s. unfold bind. specialize (Hc s).
  destruct (c s) as [[a|e] s']; simpl in *; [|done].
  eapply sameShell_trans; [exact Hc | apply Hk].
Qed.

Lemma keepsShell_forEach {A} (f : A -> Act unit) (l : list A) :
  Forall (fun x => keepsShell (f x)) l -> keepsShell (forEach f l).
Proof.
  induction 1 as [|x l Hx _ IH]; simpl.
  - apply keepsShell_ret.
  - apply keepsShell_bind; [exact Hx | intros _; exact IH].
Qed.

Lemma keepsShell_new o : keepsShell (new o).
Proof. intros s. repeat split. Qed.

Lemma keepsShell_pushComposition parent i : keepsShell (pushComposition parent i).
Proof.
  intros s. unfold pushComposition.
  destruct parent as [l|]; [|apply sameShell_refl].
  destruct (heap s !! l) as [o|]; [|apply sameShell_refl].
  destruct (composition o); repeat split.
Qed.

Section BuilderFacts.
Context `{Imports}.

Lemma keepsShell_addObject o : keepsShell (addObject o).
Proof.
  intros s. unfold addObject. destruct (heap s !! o); repeat split.
Qed.

Lemma keepsShell_addSpaceSystem ss : keepsShell (addSpaceSystem ss).
Proof.
  unfold addSpaceSystem. destruct (negb _); [|apply keepsShell_ret].
  apply keepsShell_bind; [apply keepsShell_new|]. intros obj.
  apply keepsShell_bind; [apply keepsShell_addObject|]. intros _.
  destruct (_ =? _)%Z; [|apply keepsShell_ret].
  intros s. apply keepsShell_pushComposition.
Qed.

Lemma addParameter_unfold p qn parent prefix :
  addParameter p qn parent prefix =
  (let id := qualifiedNameToId qn in
   let name := prefix +:+ p_name p in
   let ident := {| key := id; namespace := taxonomy |} in
   obj <- new (if isAggregate p then
                {| identifier := ident; name := name; type := "folder";
                   location := None; composition := Some [];
                   telemetry := None |}
              else
                {| identifier := ident; name := name;
                   type := getParameterType p;
                   location := None; composition := None;
                   telemetry := Some (telemetryValues (getParameterType p)) |}) ;;
   addObject obj ;;;
   pushComposition parent ident ;;;
   if isAggregate p then
     forEach (fun m => addParameter m (qn +:+ "." +:+ p_name m) (Some obj) (name +:+ "_"))
             (members p)
   else ret tt).
Proof.
  destruct p as [n q a [[e [ms|]]|]]; reflexivity.
Qed.

Lemma keepsShell_addParameter p :
  forall qn parent prefix, keepsShell (addParameter p qn parent prefix).
Proof.
  induction p as [p IH] using ParameterInfo_members_ind.
  intros qn parent prefix. rewrite addParameter_unfold. cbv zeta.
  apply keepsShell_bind; [apply keepsShell_new|]. intros obj.
  apply keepsShell_bind; [apply keepsShell_addObject|]. intros _.
  apply keepsShell_bind; [apply keepsShell_pushComposition|]. intros _.
  destruct (isAggregate p); [|apply keepsShell_ret].
  apply keepsShell_forEach.
  eapply Forall_impl; [exact IH|]. intros m Hm. apply Hm.
Qed.

Lemma keepsShell_addParameterObject p : keepsShell (addParameterObject p).
Proof.
  unfold addParameterObject. destruct (negb _); [|apply keepsShell_ret].
  intros s. apply keepsShell_addParameter.
Qed.

End BuilderFacts.

Section BuildRuns.
Context `{Imports}.

Lemma buildDictionary_shell ss r s :
  match buildDictionary ss r s with
  | (Returned d, s') =>
      d = ThisObjects /\ dictionaryPromise s' = None
      /\ dictionary s' = dictionary s
      /\ upstream s' = upstream s /\ settled s' = settled s
  | (Threw e, s') => sameShell s s'
  end.
Proof.
  unfold buildDictionary, bind.
  set (body := match parameters r with
               | Some ps => forEach addParameterObject ps
               | None => ret tt
               end).
  assert (keepsShell body) as H2.
  { unfold body. destruct (parameters r); [|apply keepsShell_ret].
    apply keepsShell_forEach, Forall_forall. intros; apply keepsShell_addParameterObject. }
  pose proof (keepsShell_forEach addSpaceSystem (sort_by (fun _ _ => 0%Z) ss)) as H1.
  specialize (H1 ltac:(apply Forall_forall; intros; apply keepsShell_addSpaceSystem) s).
  destruct (forEach addSpaceSystem _ s) as [[[]|e] s1]; simpl in H1; [|exact H1].
  specialize (H2 s1).
  destruct (body s1) as [[[]|e] s2]; simpl in H2.
  - simpl. pose proof (sameShell_trans _ _ _ H1 H2) as Hs.
    unfold sameShell in Hs. intuition.
  - eapply sameShell_trans; eassumption.
Qed.

Lemma fulfil_all d ws : forall s,
  let s' := foldl (fun st w => fulfil d w st) s ws in
  objects s' = objects s /\ heap s' = heap s
  /\ upstream s' = upstream s
  /\ dictionaryPromise s' = dictionaryPromise s
  /\ settled s' =
       settled s ++ map (fun w => (caller w, Resolved (dereference d s (lookupKey w)))) ws
  /\ (ws <> [] -> dictionary s' = Some d).
Proof.
  induction ws as [|w ws IH]; intros s; simpl.
  - rewrite app_nil_r. tauto.
  - specialize (IH (fulfil d w s)). simpl in IH.
    destruct IH as (Ho & Hh & Hu & Hp & Hs & Hd).
    rewrite Ho, Hh, Hu, Hp, Hs. simpl.
    split_and!; try done.
    { destruct d. rewrite <- app_assoc. reflexivity. }
    intros _. destruct ws as [|w' ws']; [reflexivity|]. apply Hd. done.
Qed.

Lemma reject_all e ws : forall s,
  let s' := foldl (fun st w => reject e w st) s ws in
  objects s' = objects s /\ heap s' = heap s
  /\ upstream s' = upstream s
  /\ dictionaryPromise s' = dictionaryPromise s
  /\ dictionary s' = dictionary s
  /\ settled s' = settled s ++ map (fun w => (caller w, Failed e)) ws.
Proof.
  induction ws as [|w ws IH]; intros s; simpl.
  - rewrite app_nil_r. tauto.
  - specialize (IH (reject e w s)). simpl in IH.
    destruct IH as (Ho & Hh & Hu & Hp & Hd & Hs).
    rewrite Ho, Hh, Hu, Hp, Hd, Hs. simpl.
    rewrite <- app_assoc. tauto.
Qed.

(** Lookups made while the build is pending join the promise in flight. *)
Lemma lookups_while_pending l : forall s stage ws,
  dictionary s = None ->
  dictionaryPromise s = Some (Pending stage ws) ->
  let s' := run s (lookups l) in
  dictionaryPromise s' = Some (Pending stage (ws ++ waiting l))
  /\ dictionary s' = None
  /\ objects s' = objects s /\ heap s' = heap s /\ rootObject s' = rootObject s
  /\ url s' = url s /\ instance s' = instance s
  /\ upstream s' = upstream s /\ settled s' = settled s.
Proof.
  induction l as [|[c i] l IH]; intros s stage ws Hd Hp s'; subst s'.
  - cbn. rewrite app_nil_r. tauto.
  - change (run s (lookups ((c, i) :: l))) with (run (get c i s) (lookups l)).
    assert (get c i s = set_dictionaryPromise
              (Some (Pending stage (ws ++ [{| caller := c; lookupKey := key i |}]))) s) as ->.
    { unfold get, getTelemetryDictionary, fetchTelemetryDictionary.
      rewrite Hd, Hp. reflexivity. }
    specialize (IH (set_dictionaryPromise
              (Some (Pending stage (ws ++ [{| caller := c; lookupKey := key i |}]))) s)
              stage (ws ++ [{| caller := c; lookupKey := key i |}]) Hd eq_refl).
    cbv zeta in IH. rewrite <- app_assoc in IH. exact IH.
Qed.

(** Lookups made once the dictionary is cached are answered from it. *)
Lemma lookups_when_cached l : forall s,
  dictionary s = Some ThisObjects ->
  let s' := run s (lookups l) in
  dictionary s' = Some ThisObjects
  /\ dictionaryPromise s' = dictionaryPromise s
  /\ objects s' = objects s /\ heap s' = heap s
  /\ upstream s' = upstream s
  /\ settled s' = settled s ++ answers s l.
Proof.
  induction l as [|[c i] l IH]; intros s Hd s'; subst s'.
  - cbn. rewrite app_nil_r. tauto.
  - change (run s (lookups ((c, i) :: l))) with (run (get c i s) (lookups l)).
    assert (get c i s = settle c (Resolved (dereference ThisObjects s (key i))) s) as ->.
    { unfold get, getTelemetryDictionary. rewrite Hd. reflexivity. }
    destruct (IH (settle c (Resolved (dereference ThisObjects s (key i))) s) Hd)
      as (H1 & H2 & H3 & H4 & H5 & H6).
    rewrite H1, H2, H3, H4, H5, H6. cbn. rewrite <- app_assoc. repeat split.
Qed.

(** Lookups made after the build promise was rejected receive that
    rejection. *)
Lemma lookups_when_rejected e l : forall s,
  dictionary s = None ->
  dictionaryPromise s = Some (Rejected e) ->
  let s' := run s (lookups l) in
  dictionary s' = None
  /\ dictionaryPromise s' = Some (Rejected e)
  /\ objects s' = objects s /\ heap s' = heap s
  /\ upstream s' = upstream s
  /\ settled s' = settled s ++ failures e l.
Proof.
  induction l as [|[c i] l IH]; intros s Hd Hp s'; subst s'.
  - cbn. rewrite app_nil_r. tauto.
  - change (run s (lookups ((c, i) :: l))) with (run (get c i s) (lookups l)).
    assert (get c i s = settle c (Failed e) s) as ->.
    { unfold get, getTelemetryDictionary, fetchTelemetryDictionary.
      rewrite Hd, Hp. reflexivity. }
    destruct (IH (settle c (Failed e) s) Hd Hp) as (H1 & H2 & H3 & H4 & H5 & H6).
    rewrite H1, H2, H3, H4, H5, H6. cbn. rewrite <- app_assoc. repeat split.
Qed.

End BuildRuns.

Section Lookups.
Context `{Imports}.

Lemma dereference_ext d s s' k :
  objects s' = objects s -> heap s' = heap s ->
  dereference d s' k = dereference d s k.
Proof. intros Ho Hh. destruct d. unfold dereference. by rewrite Ho, Hh. Qed.

Lemma answers_ext s s' l :
  objects s' = objects s -> heap s' = heap s -> answers s' l = answers s l.
Proof.
  intros Ho Hh. unfold answers. apply map_ext. intros ci.
  by rewrite (dereference_ext _ s s').
Qed.

(** C8: For every N >= 1, N catalog lookups issued before the first build
    resolves trigger exactly one upstream fetch sequence, and all N
    callers observe the same resulting dictionary; once built, subsequent
    lookups return the cached mapping without any further fetch. *)
Theorem concurrent_lookups_share_one_build
    (url inst folder : string) (first between later : list (nat * Identifier))
    (spaceSystems : list SpaceSystem) (response : ParametersResponse) :
  let s0 := constructor url inst folder in
  let s1 := run s0 (lookups first) in
  let s2 := run (step s1 (SpaceSystemsFetched spaceSystems)) (lookups between) in
  let s3 := step s2 (ParametersFetched response) in
  let s4 := run s3 (lookups later) in
  1 <= length first ->
  dictionaryPromise s3 = None ->
  upstream s1 = [AccumulateResults (getMdbUrl s0 "space-systems" "") "spaceSystems"]
  /\ settled s1 = []
  /\ upstream s2 =
       upstream s1 ++ [Fetch (getMdbUrl s0 "parameters?details=yes&limit=1000" "")]
  /\ settled s2 = []
  /\ upstream s3 = upstream s2
  /\ settled s3 = answers s3 (first ++ between)
  /\ upstream s4 = upstream s3
  /\ objects s4 = objects s3 /\ heap s4 = heap s3
  /\ settled s4 = settled s3 ++ answers s3 later.
Proof.
  intros s0 s1 s2 s3 s4 Hn.
  destruct first as [|[c i] rest]; [simpl in Hn; lia|clear Hn].
  set (w := {| caller := c; lookupKey := key i |}).
  set (sa := set_dictionaryPromise (Some (Pending AwaitSpaceSystems [w]))
               (request (AccumulateResults (getMdbUrl s0 "space-systems" "") "spaceSystems") s0)).
  assert (s1 = run sa (lookups rest)) as E1 by reflexivity.
  destruct (lookups_while_pending rest sa AwaitSpaceSystems [w] eq_refl eq_refl)
    as (Hp1 & Hd1 & Ho1 & Hh1 & Hr1 & Hurl1 & Hin1 & Hu1 & Hs1).
  rewrite <- E1 in *.
  set (sb := step s1 (SpaceSystemsFetched spaceSystems)) in *.
  assert (sb = set_dictionaryPromise
                 (Some (Pending (AwaitParameters spaceSystems) ([w] ++ waiting rest)))
                 (request (Fetch (getMdbUrl s1 "parameters?details=yes&limit=1000" "")) s1))
    as Eb.
  { unfold sb, step. rewrite Hp1. reflexivity. }
  assert (getMdbUrl s1 "parameters?details=yes&limit=1000" ""
          = getMdbUrl s0 "parameters?details=yes&limit=1000" "") as Eurl.
  { unfold getMdbUrl. by rewrite Hurl1, Hin1. }
  rewrite Eurl in Eb.
  destruct (lookups_while_pending between sb (AwaitParameters spaceSystems)
              ([w] ++ waiting rest))
    as (Hp2 & Hd2 & _ & _ & _ & _ & _ & Hu2 & Hs2).
  { rewrite Eb. exact Hd1. }
  { rewrite Eb. reflexivity. }
  fold s2 in Hp2, Hd2, Hu2, Hs2.
  assert (upstream sb = upstream s1
            ++ [Fetch (getMdbUrl s0 "parameters?details=yes&limit=1000" "")]) as Hub
    by (rewrite Eb; reflexivity).
  assert (settled sb = settled s1) as Hsb by (rewrite Eb; reflexivity).
  assert (settled s1 = []) as Hs1' by (rewrite Hs1; reflexivity).
  set (ws := ([w] ++ waiting rest) ++ waiting between) in *.
  assert (ws = waiting ((c, i) :: rest ++ between)) as Ews.
  { unfold ws, waiting. cbn [map app]. by rewrite map_app. }
  assert (s3 = match buildDictionary spaceSystems response s2 with
               | (Returned d, s') => foldl (fun st w => fulfil d w st) s' ws
               | (Threw e, s') =>
                   foldl (fun st w => reject e w st)
                         (set_dictionaryPromise (Some (Rejected e)) s') ws
               end) as E3.
  { unfold s3, step. rewrite Hp2. reflexivity. }
  pose proof (buildDictionary_shell spaceSystems response s2) as Hb.
  destruct (buildDictionary spaceSystems response s2) as [[d|e] s'].
  - destruct Hb as (-> & Hbp & Hbd & Hbu & Hbs).
    destruct (fulfil_all ThisObjects ws s') as (Ho3 & Hh3 & Hu3 & Hp3 & Hs3 & Hd3).
    rewrite <- E3 in *. intros _.
    assert (dictionary s3 = Some ThisObjects) as Hd.
    { apply Hd3. rewrite Ews. discriminate. }
    destruct (lookups_when_cached later s3 Hd) as (_ & _ & Ho4 & Hh4 & Hu4 & Hs4).
    fold s4 in Ho4, Hh4, Hu4, Hs4.
    split_and!.
    + rewrite Hu1. reflexivity.
    + exact Hs1'.
    + by rewrite Hu2, Hub.
    + by rewrite Hs2, Hsb.
    + by rewrite Hu3, Hbu.
    + rewrite Hs3, Hbs, Hs2, Hsb, Hs1'. cbn [app].
      rewrite (answers_ext s' s3) by done.
      rewrite Ews. unfold answers, waiting. rewrite map_map. reflexivity.
    + exact Hu4.
    + exact Ho4.
    + exact Hh4.
    + exact Hs4.
  - destruct (reject_all e ws (set_dictionaryPromise (Some (Rejected e)) s'))
      as (_ & _ & _ & Hp3 & _).
    rewrite <- E3 in Hp3. intros Hnone. rewrite Hnone in Hp3. discriminate.
Qed.

End Lookups.

Section LookupsInstance.
#[local] Existing Instance specImports.

(** Three callers, the third of them after the space systems arrived,
    and one folder. *)
Lemma concurrent_lookups_share_one_build_witness :
  let first := [(0, ident "spacecraft"); (1, ident "~Sat")] in
  let between := [(2, ident "~Sat")] in
  let s1 := run (constructor "http://yamcs/" "sim" "Sim") (lookups first) in
  let s2 := run (step s1 (SpaceSystemsFetched [folder "Sat"])) (lookups between) in
  let s3 := step s2 (ParametersFetched {| parameters := None |}) in
  length (upstream s3) = 2 /\ settled s3 = answers s3 (first ++ between).
Proof.
  intros first between s1 s2 s3.
  destruct (concurrent_lookups_share_one_build "http://yamcs/" "sim" "Sim"
              first between [] [folder "Sat"] {| parameters := None |})
    as (H1 & _ & H3 & _ & H5 & H6 & _).
  - simpl. lia.
  - vm_compute. reflexivity.
  - subst s3 s2 s1. split; [|exact H6].
    rewrite H5, H3, H1. reflexivity.
Defined.

End LookupsInstance.

Section Builds.
Context `{Imports}.

(** C3: a metadata fetch that fails while the build is pending rejects
    every lookup awaiting the build and caches no dictionary; but the
    rejected promise stays in [dictionaryPromise], so every later lookup
    receives the same failure and no new request goes upstream. *)
Theorem failed_fetch_is_not_retried
    (s : YamcsObjectProvider) (stage : Stage) (ws : list Lookup)
    (reason : string) (later : list (nat * Identifier)) :
  dictionary s = None ->
  dictionaryPromise s = Some (Pending stage ws) ->
  let s1 := step s (FetchFailed reason) in
  let s2 := run s1 (lookups later) in
  settled s1 = settled s ++ map (fun w => (caller w, Failed (FetchError reason))) ws
  /\ dictionary s2 = None
  /\ dictionaryPromise s2 = Some (Rejected (FetchError reason))
  /\ upstream s2 = upstream s
  /\ settled s2 = settled s1 ++ failures (FetchError reason) later.
Proof.
  intros Hd Hp s1 s2.
  assert (s1 = foldl (fun st w => reject (FetchError reason) w st)
                 (set_dictionaryPromise (Some (Rejected (FetchError reason))) s) ws)
    as E1.
  { unfold s1, step. rewrite Hp. reflexivity. }
  destruct (reject_all (FetchError reason) ws
              (set_dictionaryPromise (Some (Rejected (FetchError reason))) s))
    as (_ & _ & Hu1 & Hp1 & Hd1 & Hs1).
  rewrite <- E1 in *.
  cbn [dictionaryPromise dictionary upstream settled set_dictionaryPromise] in *.
  destruct (lookups_when_rejected (FetchError reason) later s1)
    as (Hd2 & Hp2 & _ & _ & Hu2 & Hs2); [congruence|done|].
  fold s2 in Hd2, Hp2, Hu2, Hs2.
  split_and!; [exact Hs1|exact Hd2|exact Hp2|congruence|exact Hs2].
Qed.

(** A parameter that is not suppressed and whose parent identifier is
    not a key of [objects] is stored under its own identifier, and then
    makes [addParameterObject] throw. *)
Lemma addParameterObject_missing_parent (p : ParameterInfo) (s : YamcsObjectProvider) :
  isSuppressed p = false ->
  objects s !! qualifiedNameToId
      (substring0 (p_qualifiedName p) (lastIndexOf (p_qualifiedName p) "/")) = None ->
  exists s',
    addParameterObject p s = (Threw TypeError, s')
    /\ objects s' !! qualifiedNameToId (p_qualifiedName p) = Some (length (heap s)).
Proof.
  intros Hs Hp. unfold addParameterObject. rewrite Hs. cbn [negb]. cbv zeta.
  rewrite Hp, addParameter_unfold. cbv zeta.
  unfold bind, new, addObject. cbn [heap set_heap fst snd].
  rewrite lookup_app_r by lia. rewrite Nat.sub_diag. cbn [lookup list_lookup].
  cbn [pushComposition]. eexists. split; [reflexivity|].
  cbn [objects set_objects set_heap].
  destruct (isAggregate p); cbn [identifier key]; apply lookup_insert_eq.
Qed.

(** A comparator that yields [undefined] leaves the array as it is. *)
Lemma sort_by_undefined {A} (l : list A) : sort_by (fun _ _ => 0%Z) l = l.
Proof. induction l as [|x l IH]; simpl; [done|]. rewrite IH. by destruct l. Qed.

(** The object a leaf parameter becomes. *)
Lemma addParameter_leaf (p : ParameterInfo) qn parent prefix (s : YamcsObjectProvider) :
  isAggregate p = false ->
  let s' := snd (addParameter p qn parent prefix s) in
  objects s' !! qualifiedNameToId qn = Some (length (heap s))
  /\ heap s' !! length (heap s)
     = Some {| identifier := {| key := qualifiedNameToId qn; namespace := taxonomy |};
               name := prefix +:+ p_name p;
               type := getParameterType p;
               location := None; composition := None;
               telemetry := Some (telemetryValues (getParameterType p)) |}.
Proof.
  intros Ha s'. subst s'. rewrite addParameter_unfold. cbv zeta. rewrite Ha.
  set (o := {| identifier := _ |}).
  unfold bind, new, addObject. cbn [heap set_heap fst snd].
  rewrite lookup_app_r by lia. rewrite Nat.sub_diag. cbn [lookup list_lookup].
  set (s1 := set_objects _ _).
  assert (objects s1 !! qualifiedNameToId qn = Some (length (heap s))) as Ho
    by apply lookup_insert_eq.
  assert (heap s1 !! length (heap s) = Some o) as Hh.
  { cbn. rewrite lookup_app_r by lia. by rewrite Nat.sub_diag. }
  unfold pushComposition.
  destruct parent as [l|]; [|done].
  destruct (heap s1 !! l) as [po|] eqn:El; [|done].
  destruct (composition po) as [cs|] eqn:Ec; [|done].
  cbn [fst snd ret objects heap set_heap]. split; [done|].
  rewrite list_lookup_insert_ne; [done|].
  intros E. subst l. pose proof (eq_trans (eq_sym El) Hh) as X.
  injection X as ->. discriminate.
Qed.

(** C4 at the top-level folders [b], [a], [c]: the root object lists
    their identifiers in the order they were fetched, b, a, c, since the
    comparator of the top-level sort returns nothing. *)
Theorem root_children_keep_fetch_order (url inst folderName : string) :
  let s := run (constructor url inst folderName)
             [Get 0 (ident "spacecraft");
              SpaceSystemsFetched [folder "b"; folder "a"; folder "c"];
              ParametersFetched {| parameters := None |}] in
  heap s !! rootObject s ≫= composition
  = Some [ident (qualifiedNameToId "/b"); ident (qualifiedNameToId "/a");
          ident (qualifiedNameToId "/c")].
Proof. intros s. vm_compute. reflexivity. Qed.

End Builds.

Section Leaves.
Context `{Imports}.

(** C5, as the code has it: the value field of a numeric leaf carries the
    hint [range], that of a string leaf carries no hint, and that of an
    image leaf carries the hint [image] (not [range]) and the format
    [image]; a leaf of any other type is treated as a numeric one. *)
Theorem leaf_value_field_by_kind (p : ParameterInfo) qn parent prefix
    (s : YamcsObjectProvider) :
  TELEMETRY_OBJECT_TYPE <> STRING_OBJECT_TYPE ->
  TELEMETRY_OBJECT_TYPE <> IMAGE_OBJECT_TYPE ->
  STRING_OBJECT_TYPE <> IMAGE_OBJECT_TYPE ->
  isAggregate p = false ->
  let s' := snd (addParameter p qn parent prefix s) in
  exists o v,
    dereference ThisObjects s' (qualifiedNameToId qn) = Some o
    /\ type o = getParameterType p
    /\ valueField o = Some v
    /\ v_key v = "value"
    /\ (type o = TELEMETRY_OBJECT_TYPE ->
        v_hints v = [("range", 1%Z)] /\ v_format v = None)
    /\ (type o = STRING_OBJECT_TYPE -> v_hints v = [] /\ v_format v = None)
    /\ (type o = IMAGE_OBJECT_TYPE ->
        v_hints v = [("image", 1%Z)] /\ v_format v = Some "image")
    /\ (type o <> STRING_OBJECT_TYPE -> type o <> IMAGE_OBJECT_TYPE ->
        v_hints v = [("range", 1%Z)] /\ v_format v = None).
Proof.
  intros Hts Hti Hsi Ha s'.
  destruct (addParameter_leaf p qn parent prefix s Ha) as [Ho Hh].
  fold s' in Ho, Hh.
  eexists _, (default {| v_key := ""; v_source := None; v_name := "";
                         v_format := None; v_hints := [] |}
                      (head (telemetryValues (getParameterType p)))).
  split; [unfold dereference; rewrite Ho; cbn; exact Hh|].
  cbn [type valueField telemetry mbind option_bind].
  unfold telemetryValues.
  destruct (String.eqb_spec (getParameterType p) STRING_OBJECT_TYPE) as [Es|Es];
    [|destruct (String.eqb_spec (getParameterType p) IMAGE_OBJECT_TYPE) as [Ei|Ei]];
    cbn; split_and!; try done; intros; congruence.
Qed.

End Leaves.

Section Evaluated.
#[local] Existing Instance specImports.

Lemma leaf_value_field_by_kind_witness :
  let p := {| p_name := "Temp"; p_qualifiedName := "/Sat/Temp"; p_alias := None;
              p_type := Some {| engType := Some "float"; member := None |} |} in
  let s' := snd (addParameter p "/Sat/Temp" None "" (constructor "http://yamcs/" "sim" "Sim")) in
  exists o v,
    dereference ThisObjects s' "~Sat~Temp" = Some o
    /\ type o = "numeric-telemetry"
    /\ valueField o = Some v
    /\ v_hints v = [("range", 1%Z)].
Proof.
  intros p s'.
  destruct (leaf_value_field_by_kind p "/Sat/Temp" None "" (constructor "http://yamcs/" "sim" "Sim"))
    as (o & v & H1 & H2 & H3 & _ & H5 & _); [done|done|done|reflexivity|].
  exists o, v. split_and!; [exact H1|exact H2|exact H3|].
  apply H5. exact H2.
Defined.

(** C5 fails on an image leaf: a parameter that the type-override alias
    makes an image gets the hint [image] on its value field, and no
    [range] hint. *)
Lemma image_leaf_has_no_range_hint :
  let cam := {| p_name := "Cam"; p_qualifiedName := "/Sat/Cam";
                p_alias := Some [{| a_namespace := "OpenMCT:type";
                                    a_name := IMAGE_OBJECT_TYPE |}];
                p_type := Some {| engType := Some "binary"; member := None |} |} in
  let s := run (constructor "http://yamcs/" "sim" "Sim")
             [Get 0 (ident "~Sat~Cam");
              SpaceSystemsFetched [folder "Sat"];
              ParametersFetched {| parameters := Some [cam] |}] in
  exists o v,
    settled s = [(0, Resolved (Some o))]
    /\ isAggregate cam = false
    /\ type o = IMAGE_OBJECT_TYPE
    /\ valueField o = Some v
    /\ v_key v = "value"
    /\ v_hints v = [("image", 1%Z)]
    /\ getProperty (v_hints v) "range" = None.
Proof.
  intros cam s. eexists _, _. vm_compute. split_and!; reflexivity.
Qed.

(** C3 at two lookups, a space-systems fetch that fails, and a third
    lookup: the three are rejected alike, and the only request that ever
    went upstream is the first. *)
Lemma failed_fetch_is_not_retried_witness :
  let s := run (constructor "http://yamcs/" "sim" "Sim")
             (lookups [(0, ident "spacecraft"); (1, ident "~Sat")]) in
  let s2 := run (step s (FetchFailed "503")) (lookups [(2, ident "~Sat")]) in
  settled s2 = [(0, Failed (FetchError "503")); (1, Failed (FetchError "503"));
                (2, Failed (FetchError "503"))]
  /\ upstream s2 = [AccumulateResults "http://yamcs/api/mdb/sim/space-systems"
                                      "spaceSystems"]
  /\ dictionary s2 = None.
Proof.
  intros s s2.
  destruct (failed_fetch_is_not_retried s AwaitSpaceSystems
              [{| caller := 0; lookupKey := "spacecraft" |};
               {| caller := 1; lookupKey := "~Sat" |}]
              "503" [(2, ident "~Sat")])
    as (H1 & H2 & _ & H4 & H5).
  - vm_compute. reflexivity.
  - vm_compute. reflexivity.
  - subst s2. split_and!; [|rewrite H4; vm_compute; reflexivity|exact H2].
    rewrite H5, H1. vm_compute. reflexivity.
Defined.

(** C1 at a parameter without parent folder: [/Sat/Temp] arrives, no
    space system [/Sat] does.  The lookup awaiting the build is rejected
    with a [TypeError], the parameter's object is in the mapping all the
    same, no dictionary is cached, and the rejected promise stays. *)
Theorem orphan_parameter_fails_the_build :
  let temp := {| p_name := "Temp"; p_qualifiedName := "/Sat/Temp"; p_alias := None;
                 p_type := Some {| engType := Some "float"; member := None |} |} in
  let s := run (constructor "http://yamcs/" "sim" "Sim")
             [Get 0 (ident "spacecraft");
              SpaceSystemsFetched [];
              ParametersFetched {| parameters := Some [temp] |}] in
  isSuppressed temp = false
  /\ objects s !! "~Sat" = None
  /\ settled s = [(0, Failed TypeError)]
  /\ is_Some (objects s !! "~Sat~Temp")
  /\ dictionary s = None
  /\ dictionaryPromise s = Some (Rejected TypeError).
Proof.
  intros temp s. vm_compute. split_and!; try reflexivity. by eexists.
Qed.

(** With the codec of the spec the root lists [~b], [~a], [~c], which
    is not the sorted order. *)
Lemma root_children_unsorted_example :
  let s := run (constructor "http://yamcs/" "sim" "Sim")
             [Get 0 (ident "spacecraft");
              SpaceSystemsFetched [folder "b"; folder "a"; folder "c"];
              ParametersFetched {| parameters := None |}] in
  exists root,
    settled s = [(0, Resolved (Some root))]
    /\ composition root = Some [ident "~b"; ident "~a"; ident "~c"]
    /\ composition root <> Some [ident "~a"; ident "~b"; ident "~c"].
Proof.
  intros s. eexists. vm_compute. split_and!; [reflexivity|reflexivity|discriminate].
Qed.

(** The sort of the sub-folders has a comparator that returns: the
    composition of a folder with sub-folders [b], [a], [c] is sorted. *)
Lemma sub_folders_are_sorted :
  let sat := {| ss_name := "Sat"; ss_qualifiedName := "/Sat";
                sub := Some [ {| sub_name := "b"; sub_qualifiedName := "/Sat/b" |};
                              {| sub_name := "a"; sub_qualifiedName := "/Sat/a" |};
                              {| sub_name := "c"; sub_qualifiedName := "/Sat/c" |} ] |} in
  let s := run (constructor "http://yamcs/" "sim" "Sim")
             [Get 0 (ident "~Sat");
              SpaceSystemsFetched [sat];
              ParametersFetched {| parameters := None |}] in
  exists o,
    settled s = [(0, Resolved (Some o))]
    /\ composition o = Some [ident "~Sat~a"; ident "~Sat~b"; ident "~Sat~c"].
Proof.
  intros sat s. eexists. vm_compute. split; reflexivity.
Qed.

End Evaluated.

(** * Properties of the subscription engine *)

Section Backoff.
Context `{Imports} `{Transport}.

Lemma rt_run_cons s ev evs : rt_run s (ev :: evs) = rt_run (rt_step s ev) evs.
Proof. reflexivity. Qed.

Lemma rt_run_app s evs evs' : rt_run s (evs ++ evs') = rt_run (rt_run s evs) evs'.
Proof. apply foldl_app. Qed.

Lemma failure_cycle (d : Drop) (s : RealtimeTelemetryProvider) :
  reconnectTimeout s = None ->
  currentWaitIndex s <= 5 ->
  let s' := rt_run s (failure d) in
  reconnectTimeout s' = None
  /\ currentWaitIndex s' = Nat.min (S (currentWaitIndex s)) 5
  /\ scheduled s' = scheduled s ++ [backoff (currentWaitIndex s)].
Proof.
  destruct s as [u i n c l q idx t so w sc dl]. cbn. intros -> Hi.
  assert (idx = 0 \/ idx = 1 \/ idx = 2 \/ idx = 3 \/ idx = 4 \/ idx = 5) as Hc by lia.
  destruct d; destruct Hc as [->|[->|[->|[->|[->| ->]]]]]; cbn; done.
Qed.

Lemma consecutive_failures (ds : list Drop) : forall (s : RealtimeTelemetryProvider),
  reconnectTimeout s = None ->
  currentWaitIndex s <= 5 ->
  let s' := rt_run s (consecutiveFailures ds) in
  reconnectTimeout s' = None
  /\ currentWaitIndex s' = Nat.min (currentWaitIndex s + length ds) 5
  /\ scheduled s' =
       scheduled s ++ map (fun k => backoff (currentWaitIndex s + k)) (seq 0 (length ds)).
Proof.
  induction ds as [|d ds IH]; intros s Ht Hi s'; subst s'.
  - cbn. rewrite app_nil_r, Nat.add_0_r. split_and!; [done|lia|done].
  - cbn [consecutiveFailures length]. rewrite rt_run_app.
    destruct (failure_cycle d s Ht Hi) as (Ht1 & Hi1 & Hs1).
    destruct (IH (rt_run s (failure d)) Ht1 ltac:(lia)) as (Ht2 & Hi2 & Hs2).
    rewrite Ht2, Hi2, Hs2, Hs1, Hi1. split_and!; [done|lia|].
    rewrite <- app_assoc. f_equal. cbn [seq map app]. rewrite Nat.add_0_r. f_equal.
    rewrite <- seq_shift, map_map. apply map_ext_in. intros k _.
    unfold backoff. f_equal. lia.
Qed.

Lemma freshBackoff_reconnect sched s :
  freshBackoff sched s -> freshBackoff sched (reconnect s).
Proof.
  destruct s as [u i n c l q idx t so w sc d].
  intros [(Ht & Hi & Hs)|(Ht & Hs)]; cbn in *; subst.
  - right. done.
  - right. done.
Qed.

Lemma freshBackoff_sendRequest sched r s :
  freshBackoff sched s -> freshBackoff sched (sendRequest r s).2.
Proof. intros Hf. exact Hf. Qed.

Lemma freshBackoff_sendOrQueueRequest sched r s :
  freshBackoff sched s -> freshBackoff sched (sendOrQueueRequest r s).
Proof.
  intros Hf. unfold sendOrQueueRequest.
  destruct (connected s); [|exact Hf].
  pose proof (freshBackoff_sendRequest sched r s Hf) as Hf'.
  destruct (sendRequest r s) as [[[]|e] s']; [exact Hf'|].
  apply freshBackoff_reconnect. exact Hf'.
Qed.

Lemma freshBackoff_flushing sched q : forall s,
  freshBackoff sched s -> freshBackoff sched (flushing q s).2.
Proof.
  induction q as [|r q IH]; intros s Hf; [exact Hf|].
  cbn [flushing].
  pose proof (freshBackoff_sendRequest sched r s Hf) as Hf'.
  destruct (sendRequest r s) as [[[]|e] s']; [by apply IH|].
  specialize (IH (set_connected false s') Hf').
  destruct (flushing q (set_connected false s')) as [[kept again] s'']. exact IH.
Qed.

Lemma freshBackoff_onopen (s : RealtimeTelemetryProvider) :
  reconnectTimeout s = None -> freshBackoff (scheduled s) (onopen s).
Proof.
  intros Ht. unfold onopen, clearTimeout. rewrite Ht.
  set (s3 := set_currentWaitIndex 0 (set_connected true s)).
  assert (freshBackoff (scheduled s) s3) as H3 by (left; done).
  assert (freshBackoff (scheduled s) (resubscribeToAll s3)) as H4.
  { unfold resubscribeToAll. generalize (ownKeys (listener s3)).
    intros ks. revert H3. generalize s3. induction ks as [|k ks IH]; intros st Hst.
    - exact Hst.
    - cbn. apply IH. by apply freshBackoff_sendOrQueueRequest. }
  unfold flushQueue.
  pose proof (freshBackoff_flushing _ (requests (resubscribeToAll s3)) _ H4) as H5.
  destruct (flushing _ _) as [[kept again] s5]. cbn in H5.
  destruct again; [apply freshBackoff_reconnect|]; exact H5.
Qed.

Lemma freshBackoff_failure sched d s :
  freshBackoff sched s -> scheduled (rt_run s (failure d)) = sched ++ [1000%Z].
Proof.
  destruct s as [u i n c l q idx t so w sc dl].
  intros [(Ht & Hi & Hs)|(Ht & Hs)]; destruct d; cbn in *; subst; cbn; by destruct c.
Qed.

(** C6: Reconnect waits follow the fixed schedule
    [1000, 5000, 5000, 10000, 10000, 30000] ms, advancing one step per
    consecutive failure and holding at the final 30000 ms thereafter:
    the wait after the 6th and every later consecutive failure is
    30000 ms, and a successful connection resets the next failure's wait
    to 1000 ms. *)
Theorem reconnect_backoff_schedule (s : RealtimeTelemetryProvider)
    (ds : list Drop) (d : Drop) :
  reconnectTimeout s = None ->
  currentWaitIndex s = 0 ->
  let s' := rt_run s (consecutiveFailures ds) in
  scheduled s' = scheduled s ++ map backoff (seq 0 (length ds))
  /\ map backoff (seq 0 6) = [1000; 5000; 5000; 10000; 10000; 30000]%Z
  /\ (forall k, 5 <= k -> backoff k = 30000%Z)
  /\ scheduled (rt_run s' (OnOpen :: failure d)) = scheduled s' ++ [1000%Z].
Proof.
  intros Ht Hi s'.
  destruct (consecutive_failures ds s Ht ltac:(lia)) as (Ht' & _ & Hs').
  fold s' in Ht', Hs'. rewrite Hi in Hs'. split_and!.
  - exact Hs'.
  - reflexivity.
  - intros k Hk. unfold backoff. by rewrite Nat.min_r.
  - clearbody s'. rewrite rt_run_cons. cbn [rt_step].
    apply freshBackoff_failure, freshBackoff_onopen, Ht'.
Qed.

End Backoff.

Section BackoffInstance.
#[local] Existing Instance specImports.
#[local] Existing Instance reliable.

Lemma reconnect_backoff_schedule_witness :
  let s := connect (rt_constructor "ws://yamcs/" "sim") in
  let ds := [Refused; Refused; Lost; Refused; Lost; Refused; Refused; Lost] in
  scheduled (rt_run s (consecutiveFailures ds))
  = [1000; 5000; 5000; 10000; 10000; 30000; 30000; 30000]%Z
  /\ scheduled (rt_run s (consecutiveFailures ds ++ OnOpen :: failure Lost))
     = [1000; 5000; 5000; 10000; 10000; 30000; 30000; 30000; 1000]%Z.
Proof.
  intros s ds.
  destruct (reconnect_backoff_schedule s ds Lost eq_refl eq_refl) as (H1 & _ & _ & H4).
  split; [exact H1|].
  rewrite rt_run_app, H4, H1. reflexivity.
Defined.

End BackoffInstance.

Section SequenceNumbers.
Context `{Imports} `{Transport}.

Lemma numbered_initial : numbered 0 0 [].
Proof. split_and!; [constructor|done|done]. Qed.

Lemma onSocket_beyond k g w :
  Forall (fun e => w_socket e <= k) w -> k < g -> onSocket g w = [].
Proof.
  intros Hw Hg. unfold onSocket. induction Hw as [|e w He _ IH]; [done|].
  cbn. destruct (Nat.eqb_spec (w_socket e) g); [lia|exact IH].
Qed.

Lemma numbered_connect n k w : numbered n k w -> numbered 0 (S k) w.
Proof.
  intros (Hb & Hs & _). split_and!.
  - eapply Forall_impl; [exact Hb|]. cbn. intros; lia.
  - exact Hs.
  - by rewrite (onSocket_beyond k (S k) w Hb) by lia.
Qed.

Lemma numbered_send n k w r ok :
  numbered n k w ->
  numbered (S n) k (w ++ [{| w_socket := k; w_seqNo := S n;
                            w_request := r; w_accepted := ok |}]).
Proof.
  intros (Hb & Hs & Hn). split_and!.
  - apply Forall_app. split; [exact Hb|]. by repeat constructor.
  - intros g. unfold onSocket. rewrite List.filter_app. cbn.
    destruct (Nat.eqb_spec k g) as [<-|Hne].
    + fold (onSocket k w). rewrite map_app, length_app, Hs, <- Hn. cbn.
      rewrite Nat.add_1_r, seq_S. reflexivity.
    + rewrite app_nil_r. apply Hs.
  - unfold onSocket. rewrite List.filter_app. cbn. rewrite Nat.eqb_refl.
    fold (onSocket k w). rewrite length_app, <- Hn. cbn. lia.
Qed.

Lemma wellNumbered_sendRequest r s :
  wellNumbered s -> wellNumbered (sendRequest r s).2.
Proof. intros Hs. apply numbered_send. exact Hs. Qed.

Lemma wellNumbered_reconnect s : wellNumbered s -> wellNumbered (reconnect s).
Proof.
  intros Hs. unfold reconnect. destruct (reconnectTimeout s); [exact Hs|].
  cbv zeta. destruct (Nat.ltb _ _); exact Hs.
Qed.

Lemma wellNumbered_sendOrQueueRequest r s :
  wellNumbered s -> wellNumbered (sendOrQueueRequest r s).
Proof.
  intros Hs. unfold sendOrQueueRequest.
  destruct (connected s); [|exact Hs].
  pose proof (wellNumbered_sendRequest r s Hs) as Hs'.
  destruct (sendRequest r s) as [[[]|e] s']; [exact Hs'|].
  apply wellNumbered_reconnect. exact Hs'.
Qed.

Lemma wellNumbered_flushing q : forall s,
  wellNumbered s -> wellNumbered (flushing q s).2.
Proof.
  induction q as [|r q IH]; intros s Hs; [exact Hs|].
  cbn [flushing].
  pose proof (wellNumbered_sendRequest r s Hs) as Hs'.
  destruct (sendRequest r s) as [[[]|e] s']; [by apply IH|].
  specialize (IH (set_connected false s') Hs').
  destruct (flushing q (set_connected false s')) as [[kept again] s'']. exact IH.
Qed.

Lemma wellNumbered_flushQueue s : wellNumbered s -> wellNumbered (flushQueue s).
Proof.
  intros Hs. unfold flushQueue.
  pose proof (wellNumbered_flushing (requests s) s Hs) as Hf.
  destruct (flushing (requests s) s) as [[kept again] s']. cbn in Hf.
  destruct again; [apply wellNumbered_reconnect|]; exact Hf.
Qed.

Lemma wellNumbered_resubscribeToAll s :
  wellNumbered s -> wellNumbered (resubscribeToAll s).
Proof.
  unfold resubscribeToAll. generalize (ownKeys (listener s)). intros ks.
  revert s. induction ks as [|k ks IH]; intros s Hs; [exact Hs|].
  cbn. apply IH. by apply wellNumbered_sendOrQueueRequest.
Qed.

Lemma wellNumbered_connect s : wellNumbered s -> wellNumbered (connect s).
Proof.
  intros Hs. unfold connect. destruct (connected s); [exact Hs|].
  unfold wellNumbered. cbn. rewrite length_app, Nat.add_1_r.
  eapply numbered_connect. exact Hs.
Qed.

Lemma wellNumbered_step s ev : wellNumbered s -> wellNumbered (rt_step s ev).
Proof.
  intros Hs. destruct ev; cbn [rt_step].
  - unfold subscribe, subscribeToTelemetry. cbn [snd].
    destruct (connected _); [apply wellNumbered_sendOrQueueRequest|]; exact Hs.
  - unfold unsubscribe. apply (wellNumbered_sendOrQueueRequest _ _ Hs).
  - by apply wellNumbered_connect.
  - unfold onopen. apply wellNumbered_flushQueue, wellNumbered_resubscribeToAll.
    unfold clearTimeout. destruct (reconnectTimeout s); exact Hs.
  - exact Hs.
  - by apply wellNumbered_reconnect.
  - by apply wellNumbered_reconnect.
  - unfold timeout. destruct (reconnectTimeout s) as [t|]; [|exact Hs].
    destruct (armed t); [|exact Hs]. apply (wellNumbered_connect _ Hs).
Qed.

Lemma wellNumbered_run evs : forall s,
  wellNumbered s -> wellNumbered (rt_run s evs).
Proof.
  induction evs as [|ev evs IH]; intros s Hs; [exact Hs|].
  apply IH, wellNumbered_step, Hs.
Qed.

Lemma strictlyIncreasing_seq a n : strictlyIncreasing (seq a n).
Proof.
  intros i j x y Hij Hx Hy.
  apply lookup_seq in Hx as [-> _]. apply lookup_seq in Hy as [-> _]. lia.
Qed.

(** C2, as the code has it: sequence numbers start at 1 on every socket
    the provider creates and increase by 1 with every write attempted on
    that socket, so that of two writes on one socket the earlier carries
    the strictly smaller number; [connect] sets the counter back to 0
    when it creates the next socket. *)
Theorem sequence_numbers_per_socket (url inst : string) (evs : list RtEvent) (g : nat) :
  let s := rt_run (rt_constructor url inst) evs in
  let numbers := map w_seqNo (onSocket g (wire s)) in
  numbers = seq 1 (length numbers)
  /\ strictlyIncreasing numbers
  /\ seqNo s = length (onSocket (length (sockets s)) (wire s))
  /\ seqNo (connect (set_connected false s)) = 0.
Proof.
  intros s numbers.
  assert (wellNumbered s) as (Hb & Hs & Hn).
  { apply wellNumbered_run. apply numbered_initial. }
  assert (numbers = seq 1 (length numbers)) as E.
  { unfold numbers. rewrite length_map. apply Hs. }
  split_and!; [exact E| |exact Hn|reflexivity].
  rewrite E. apply strictlyIncreasing_seq.
Qed.

End SequenceNumbers.

Section SequenceNumbersInstance.
#[local] Existing Instance specImports.
#[local] Existing Instance reliable.

(** C2 fails across a reconnect: a subscription is written with number 1
    on the first socket; after the socket closes and the provider
    reconnects, the resubscription is written with number 1 again. *)
Lemma sequence_numbers_restart_on_reconnect :
  let a := {| identifier := ident "~Sat~Temp"; name := "Temp";
              type := TELEMETRY_OBJECT_TYPE; location := None;
              composition := None; telemetry := None |} in
  let s := rt_run (rt_constructor "ws://yamcs/" "sim")
             [CallConnect; OnOpen; CallSubscribe a 7;
              OnClose; TimerDue; OnOpen] in
  map w_seqNo (wire s) = [1; 1]
  /\ map w_socket (wire s) = [1; 2]
  /\ map w_accepted (wire s) = [true; true]
  /\ ~ strictlyIncreasing (map w_seqNo (wire s)).
Proof.
  intros a s. vm_compute. split_and!; try reflexivity.
  intros Hinc. specialize (Hinc 0 1 1 1). cbn in Hinc.
  specialize (Hinc ltac:(lia) eq_refl eq_refl). lia.
Qed.

End SequenceNumbersInstance.

Section PlainObjects.
Context {V : Type}.


Lemma getProperty_deleteProperty (o : list (string * V)) k :
  getProperty (deleteProperty o k) k = None.
Proof.
  induction o as [|[k' v'] o IH]; cbn; [done|].
  destruct (String.eqb k' k) eqn:E; cbn; [exact IH|]. by rewrite E.
Qed.

Lemma insert_by_Permutation {A} (cmp : A -> A -> Z) x (l : list A) :
  insert_by cmp x l ≡ₚ x :: l.
Proof.
  induction l as [|y l IH]; cbn; [done|].
  destruct (0 <? cmp x y)%Z; [|done]. rewrite IH. apply Permutation_swap.
Qed.

Lemma sort_by_Permutation {A} (cmp : A -> A -> Z) (l : list A) :
  sort_by cmp l ≡ₚ l.
Proof.
  induction l as [|x l IH]; cbn; [done|].
  rewrite insert_by_Permutation. by constructor.
Qed.

Lemma partition_Permutation {A} (f : A -> bool) (l : list A) :
  List.filter f l ++ List.filter (fun x => negb (f x)) l ≡ₚ l.
Proof.
  induction l as [|x l IH]; cbn; [done|].
  destruct (f x); cbn.
  - by constructor.
  - rewrite <- Permutation_middle. by constructor.
Qed.

(** [Object.keys] lists every own key once. *)
Lemma ownKeys_Permutation (o : list (string * V)) : ownKeys o ≡ₚ map fst o.
Proof.
  unfold ownKeys. cbv zeta. rewrite sort_by_Permutation. apply partition_Permutation.
Qed.

End PlainObjects.

Section Delivery.
Context `{Imports} `{Transport}.

Lemma reconnect_fields s :
  listener (reconnect s) = listener s /\ requests (reconnect s) = requests s
  /\ wire (reconnect s) = wire s /\ connected (reconnect s) = connected s.
Proof.
  unfold reconnect. destruct (reconnectTimeout s); [done|].
  cbv zeta. by destruct (Nat.ltb _ _).
Qed.


(** The identifier derived from a well-formed sample is the one of its
    qualified name. *)
Lemma readPoint_sample name fields pt :
  readPoint (sample name fields) = Returned pt -> id pt = qualifiedNameToId name.
Proof.
  unfold readPoint, sample, member_of. rewrite rev_app_distr. cbn.
  destruct (getProperty _ "generationTimeUTC"), (getProperty _ "engValue");
    cbn; destruct (getValue _); cbn; try discriminate;
    destruct (addLimitInformation _); cbn; try discriminate;
    by intros [= <-].
Qed.

Lemma dispatch_unregistered s p pt rest :
  readPoint p = Returned pt ->
  getProperty (listener s) (id pt) = None ->
  dispatch s (p :: rest) = dispatch s rest.
Proof.
  intros Hp Hn. cbn [dispatch]. rewrite Hp, Hn. by destruct (dispatch s rest).
Qed.

Lemma onmessage_parameterData s a b c samples more :
  onmessage s (a :: b :: c :: parameterData samples :: more) = dispatch s samples.
Proof. reflexivity. Qed.


End Delivery.

Section Reconnection.
Context `{Imports} `{Transport}.

(** What [sendAll] leaves alone, and what it adds. *)
Lemma sendAll_fields cmds : forall s,
  let s' := sendAll cmds s in
  connected s' = connected s /\ listener s' = listener s
  /\ requests s' = requests s /\ currentWaitIndex s' = currentWaitIndex s
  /\ reconnectTimeout s' = reconnectTimeout s /\ sockets s' = sockets s
  /\ scheduled s' = scheduled s
  /\ seqNo s' = seqNo s + length cmds
  /\ length (wire s') = length (wire s) + length cmds.
Proof.
  induction cmds as [|c cmds IH]; intros s s'; subst s'.
  - cbn. split_and!; try done; lia.
  - change (sendAll (c :: cmds) s) with (sendAll cmds (sendRequest c s).2).
    destruct (IH (sendRequest c s).2) as (H1 & H2 & H3 & H4 & H5 & H6 & H7 & H8 & H9).
    rewrite H1, H2, H3, H4, H5, H6, H7, H8, H9. cbn. rewrite length_app. cbn.
    split_and!; try done; lia.
Qed.

Lemma sendAll_app a b s : sendAll (a ++ b) s = sendAll b (sendAll a s).
Proof. unfold sendAll. apply foldl_app. Qed.

Lemma sendAll_wire cmds : forall s,
  sockets s <> [] ->
  (forall k, length (wire s) <= k -> accepts k = true) ->
  wire (sendAll cmds s) = wire s ++ writesFrom s cmds.
Proof.
  induction cmds as [|c cmds IH]; intros s Hso Hok.
  - cbn. by rewrite app_nil_r.
  - change (sendAll (c :: cmds) s) with (sendAll cmds (sendRequest c s).2).
    rewrite IH.
    + cbn [sendRequest snd wire]. rewrite <- app_assoc. f_equal.
      unfold writesFrom. rewrite imap_cons. cbn [app sockets seqNo sendRequest snd].
      rewrite (Hok (length (wire s))) by lia.
      destruct (sockets s) as [|x so]; [done|]. cbn [length Nat.eqb negb andb].
      f_equal; [f_equal; lia|].
      apply imap_ext. intros i c' _. cbn. f_equal. lia.
    + exact Hso.
    + intros k Hk. apply Hok. cbn in Hk. rewrite length_app in Hk. cbn in Hk. lia.
Qed.

Lemma sendRequest_accepted c s :
  sockets s <> [] -> accepts (length (wire s)) = true ->
  (sendRequest c s).1 = Returned tt.
Proof.
  intros Hso Hok. unfold sendRequest. rewrite Hok.
  destruct (sockets s); [done|reflexivity].
Qed.

Lemma sendOrQueueRequest_accepted c s :
  connected s = true -> sockets s <> [] -> accepts (length (wire s)) = true ->
  sendOrQueueRequest c s = (sendRequest c s).2.
Proof.
  intros Hc Hso Hok. unfold sendOrQueueRequest. rewrite Hc.
  pose proof (sendRequest_accepted c s Hso Hok) as E.
  destruct (sendRequest c s) as [r s']. cbn in E. by rewrite E.
Qed.

Lemma subscribe_all_accepted ks : forall s,
  connected s = true -> sockets s <> [] ->
  (forall k, length (wire s) <= k -> accepts k = true) ->
  foldl (fun st id => tlmSubscribe (idToQualifiedName id) st) s ks
  = sendAll (map (fun id => Subscribe (idToQualifiedName id)) ks) s.
Proof.
  induction ks as [|k ks IH]; intros s Hc Hso Hok; [done|].
  cbn [foldl map]. unfold tlmSubscribe at 2.
  rewrite sendOrQueueRequest_accepted by (try done; apply Hok; lia).
  rewrite IH; [done|done|done|].
  intros j Hj. apply Hok. cbn in Hj. rewrite length_app in Hj. lia.
Qed.

Lemma flushing_accepted q : forall s,
  sockets s <> [] ->
  (forall k, length (wire s) <= k -> accepts k = true) ->
  flushing q s = ([], false, sendAll q s).
Proof.
  induction q as [|c q IH]; intros s Hso Hok; [done|].
  cbn [flushing].
  change (sendAll (c :: q) s) with (sendAll q (sendRequest c s).2).
  pose proof (sendRequest_accepted c s Hso (Hok _ (le_n _))) as E.
  assert (sockets (sendRequest c s).2 = sockets s) as Eso by reflexivity.
  assert (length (wire (sendRequest c s).2) = S (length (wire s))) as Ew.
  { cbn. rewrite length_app. cbn. lia. }
  destruct (sendRequest c s) as [r s']. cbn [fst snd] in *. rewrite E.
  apply IH.
  - by rewrite Eso.
  - intros j Hj. apply Hok. lia.
Qed.

Lemma writesFrom_requests s cmds : map w_request (writesFrom s cmds) = cmds.
Proof.
  unfold writesFrom. generalize (seqNo s + 1). intros n. revert n.
  induction cmds as [|c cmds IH]; intros n; [done|].
  rewrite imap_cons. cbn. f_equal.
  rewrite <- (IH (S n)) at 2. f_equal. apply imap_ext. intros i c' _. cbn.
  f_equal. lia.
Qed.

(** C7: On every successful (re)connection, a subscribe command is sent
    for each identifier currently in the callback mapping before any
    command from the Pending Command Queue is sent, and the queued
    commands are then drained in FIFO order: with active subscriptions
    for [a, b], exactly two subscribe commands (for a and b) are sent
    immediately upon reconnection, before any queued commands. *)
Theorem resubscribe_then_flush_on_open (s : RealtimeTelemetryProvider) :
  sockets s <> [] ->
  (forall k, length (wire s) <= k -> accepts k = true) ->
  let subscriptions :=
    map (fun id => Subscribe (idToQualifiedName id)) (ownKeys (listener s)) in
  let s' := onopen s in
  wire s' = wire s ++ writesFrom s (subscriptions ++ requests s)
  /\ map w_request (writesFrom s (subscriptions ++ requests s))
     = subscriptions ++ requests s
  /\ requests s' = []
  /\ connected s' = true
  /\ ownKeys (listener s) ≡ₚ map fst (listener s)
  /\ (map fst (listener s) = ["a"; "b"] ->
      subscriptions = [Subscribe (idToQualifiedName "a");
                       Subscribe (idToQualifiedName "b")]).
Proof.
  intros Hso Hok subscriptions s'.
  set (s3 := set_currentWaitIndex 0 (set_connected true (clearTimeout s))).
  assert (sockets s3 = sockets s /\ wire s3 = wire s /\ seqNo s3 = seqNo s
          /\ requests s3 = requests s /\ listener s3 = listener s
          /\ connected s3 = true) as (Eso & Ew & En & Er & El & Ec).
  { unfold s3, clearTimeout. by destruct (reconnectTimeout s). }
  assert (resubscribeToAll s3 = sendAll subscriptions s3) as E1.
  { unfold resubscribeToAll. rewrite El. apply subscribe_all_accepted.
    - exact Ec.
    - by rewrite Eso.
    - by rewrite Ew. }
  destruct (sendAll_fields subscriptions s3) as (F1 & _ & F3 & _ & _ & F6 & _ & _ & F9).
  assert (s' = set_requests [] (sendAll (subscriptions ++ requests s) s3)) as E2.
  { unfold s', onopen. fold s3. rewrite E1. unfold flushQueue.
    rewrite flushing_accepted.
    - by rewrite F3, Er, sendAll_app.
    - by rewrite F6, Eso.
    - intros k Hk. apply Hok. rewrite F9, Ew in Hk. lia. }
  destruct (sendAll_fields (subscriptions ++ requests s) s3) as (G1 & _).
  split_and!.
  - rewrite E2. cbn [wire set_requests]. rewrite sendAll_wire.
    + rewrite Ew. f_equal. unfold writesFrom. by rewrite Eso, En.
    + by rewrite Eso.
    + by rewrite Ew.
  - apply writesFrom_requests.
  - by rewrite E2.
  - rewrite E2. cbn [connected set_requests]. by rewrite G1.
  - apply ownKeys_Permutation.
  - intros Ek. unfold subscriptions, ownKeys. by rewrite Ek.
Qed.

End Reconnection.

Section DeliveryInstance.
#[local] Existing Instance specImports.
#[local] Existing Instance reliable.

(** Subscriptions for [a], [b] and [c], a disconnect during which [c] is
    unsubscribed, and the reconnection: the two subscribe commands for
    [a] and [b] go out first, the queued unsubscribe follows. *)
Lemma resubscribe_then_flush_on_open_witness :
  let s := rt_run (rt_constructor "ws://yamcs/" "sim")
             [CallConnect; OnOpen; CallSubscribe (point "a") 1;
              CallSubscribe (point "b") 2; CallSubscribe (point "c") 3; OnClose;
              CallUnsubscribe {| u_name := "c"; u_id := "c" |}; TimerDue] in
  map fst (listener s) = ["a"; "b"]
  /\ requests s = [Unsubscribe "c"]
  /\ map w_request (drop (length (wire s)) (wire (onopen s)))
     = [Subscribe "a"; Subscribe "b"; Unsubscribe "c"]
  /\ requests (onopen s) = [].
Proof.
  intros s.
  destruct (resubscribe_then_flush_on_open s) as (H1 & H2 & H3 & _).
  - vm_compute. discriminate.
  - reflexivity.
  - split_and!; [vm_compute; reflexivity|vm_compute; reflexivity| |exact H3].
    rewrite H1, drop_app_length, H2. vm_compute. reflexivity.
Defined.


End DeliveryInstance.

(** * Further properties of the dictionary builder *)

Section BuilderSteps.
Context `{Imports}.

Lemma nodes_unfold p :
  nodes p = S (if isAggregate p then sum_list (map nodes (members p)) else 0).
Proof.
  destruct p as [n q a [[e [ms|]]|]]; try reflexivity.
  cbn [nodes]. f_equal. destruct (isAggregate _); [|done].
  unfold members. cbn. induction ms as [|m ms IH]; [done|]. cbn. by rewrite IH.
Qed.


End BuilderSteps.

Section BuilderObjects.
Context `{Imports}.

Lemma added_fields s (l : nat) po c o i :
  heap s !! l = Some po ->
  heap (added s l po c o i) = <[l := withChild po c i]> (heap s) ++ [o]
  /\ objects (added s l po c o i) = <[key (identifier o) := length (heap s)]> (objects s)
  /\ sameShell s (added s l po c o i).
Proof.
  intros Hl. split_and!; [|done|repeat split].
  cbn. apply insert_app_l. by eapply lookup_lt_Some.
Qed.

(** The statements every parameter starts with, for a parent that is a
    folder. *)
Lemma enter_folder {A} (k : loc -> Act A) s o (l : nat) po c i :
  heap s !! l = Some po -> composition po = Some c ->
  (obj <- new o ;; addObject obj ;;; pushComposition (Some l) i ;;; k obj) s
  = k (length (heap s)) (added s l po c o i).
Proof.
  intros Hl Hc. unfold bind, new, addObject. cbn [heap set_heap fst snd].
  rewrite lookup_app_r by lia. rewrite Nat.sub_diag. cbn [lookup list_lookup].
  unfold pushComposition. cbn [heap set_objects set_heap].
  rewrite lookup_app_l by (by eapply lookup_lt_Some). rewrite Hl, Hc. reflexivity.
Qed.

Lemma addParameter_folder p qn prefix s (l : nat) po c :
  heap s !! l = Some po -> composition po = Some c ->
  addParameter p qn (Some l) prefix s
  = let i := ident (qualifiedNameToId qn) in
    if isAggregate p then
      forEach (fun m => addParameter m (qn +:+ "." +:+ p_name m)
                          (Some (length (heap s))) ((prefix +:+ p_name p) +:+ "_"))
              (members p)
              (added s l po c (aggregateObject p qn prefix []) i)
    else (Returned tt, added s l po c (leafObject p qn prefix) i).
Proof.
  intros Hl Hc. rewrite addParameter_unfold. cbv zeta.
  destruct (isAggregate p) eqn:Ea.
  - pose proof (enter_folder
      (fun obj => forEach (fun m => addParameter m (qn +:+ "." +:+ p_name m)
                             (Some obj) ((prefix +:+ p_name p) +:+ "_")) (members p))
      s (aggregateObject p qn prefix []) l po c (ident (qualifiedNameToId qn)) Hl Hc) as E.
    exact E.
  - pose proof (enter_folder (fun _ => ret tt)
      s (leafObject p qn prefix) l po c (ident (qualifiedNameToId qn)) Hl Hc) as E.
    exact E.
Qed.

(** A leaf parameter whose parent is a folder of the mapping is stored
    under its identifier and listed last in the parent's composition;
    nothing else changes. *)
Theorem leaf_parameter_joins_its_parent (p : ParameterInfo)
    (s : YamcsObjectProvider) (l : nat) (po : DomainObject) (c : list Identifier) :
  let qn := p_qualifiedName p in
  let i := ident (qualifiedNameToId qn) in
  isSuppressed p = false ->
  isAggregate p = false ->
  objects s !! qualifiedNameToId (substring0 qn (lastIndexOf qn "/")) = Some l ->
  heap s !! l = Some po ->
  composition po = Some c ->
  exists s',
    addParameterObject p s = (Returned tt, s')
    /\ objects s' = <[key i := length (heap s)]> (objects s)
    /\ heap s' = <[l := withChild po c i]> (heap s) ++ [leafObject p qn ""]
    /\ sameShell s s'.
Proof.
  intros qn i Hs Ha Ho Hl Hc. subst qn i.
  unfold addParameterObject. rewrite Hs. cbn [negb]. cbv zeta.
  unfold loc in *. rewrite Ho, (addParameter_folder _ _ _ _ _ _ _ Hl Hc). cbv zeta.
  rewrite Ha. eexists. split; [reflexivity|].
  by destruct (added_fields s l po c (leafObject p (p_qualifiedName p) "")
                 (ident (qualifiedNameToId (p_qualifiedName p))) Hl) as (E1 & E2 & E3).
Qed.

End BuilderObjects.

Section Aggregates.
Context `{Imports}.

Lemma insert_middle {A} (h : list A) (x y : A) (r : list A) :
  <[length h := x]> (h ++ y :: r) = h ++ x :: r.
Proof. rewrite insert_app_r_alt by lia. by rewrite Nat.sub_diag. Qed.

Lemma lookup_middle {A} (h : list A) (y : A) (r : list A) :
  (h ++ y :: r) !! length h = Some y.
Proof. rewrite lookup_app_r by lia. by rewrite Nat.sub_diag. Qed.

(** The members of an aggregate that are themselves leaves, added to the
    folder the aggregate became. *)
Lemma leaf_members_join_the_folder p qn prefix (ms : list ParameterInfo) :
  Forall (fun m => isAggregate m = false) ms ->
  forall (t : YamcsObjectProvider) (h r : list DomainObject) (cs : list Identifier),
  heap t = h ++ aggregateObject p qn prefix cs :: r ->
  exists t',
    forEach (fun m => addParameter m (qn +:+ "." +:+ p_name m)
                        (Some (length h)) ((prefix +:+ p_name p) +:+ "_")) ms t
    = (Returned tt, t')
    /\ heap t' =
         h ++ aggregateObject p qn prefix
                (cs ++ map (fun m => ident (qualifiedNameToId (qn +:+ "." +:+ p_name m))) ms)
           :: r ++ map (fun m => leafObject m (qn +:+ "." +:+ p_name m)
                                   ((prefix +:+ p_name p) +:+ "_")) ms
    /\ objects t' =
         storeAll (objects t)
           (zip (map (fun m => qualifiedNameToId (qn +:+ "." +:+ p_name m)) ms)
                (seq (length (heap t)) (length ms)))
    /\ sameShell t t'.
Proof.
  induction 1 as [|m ms Hm _ IH]; intros t h r cs Ht.
  - eexists. split; [reflexivity|]. cbn [map]. rewrite !app_nil_r.
    split; [exact Ht|]. split; [reflexivity|apply sameShell_refl].
  - cbn [forEach]. unfold bind.
    assert (heap t !! length h = Some (aggregateObject p qn prefix cs)) as Hl
      by (rewrite Ht; apply lookup_middle).
    rewrite (addParameter_folder m _ _ t (length h) _ cs Hl eq_refl). cbv zeta.
    rewrite Hm.
    set (i := ident (qualifiedNameToId (qn +:+ "." +:+ p_name m))).
    set (o := leafObject m (qn +:+ "." +:+ p_name m) ((prefix +:+ p_name p) +:+ "_")).
    destruct (added_fields t (length h) (aggregateObject p qn prefix cs) cs o i Hl)
      as (E1 & E2 & E3).
    destruct (IH (added t (length h) (aggregateObject p qn prefix cs) cs o i)
                h (r ++ [o]) (cs ++ [i])) as (t' & Ef & Eh & Eo & Es).
    { rewrite E1, Ht, insert_middle. rewrite <- app_assoc. reflexivity. }
    exists t'. split; [exact Ef|]. split; [|split].
    + rewrite Eh. cbn [map]. rewrite <- !app_assoc. reflexivity.
    + rewrite Eo, E2, E1. cbn [length map seq zip zip_with storeAll foldl fst snd].
      rewrite length_app, length_insert. cbn [length]. rewrite Nat.add_1_r.
      reflexivity.
    + exact (sameShell_trans _ _ _ E3 Es).
Qed.

(** An aggregate parameter whose members are leaves, under a parent that
    is a folder: the aggregate becomes a folder listed last in the
    parent, each member becomes a leaf whose qualified name is the
    aggregate's followed by a dot and the member's name and whose
    display name is the aggregate's followed by an underscore and the
    member's, and the folder lists the members in their order. *)
Theorem aggregate_members_become_leaves (p : ParameterInfo) qn prefix
    (s : YamcsObjectProvider) (l : nat) (po : DomainObject) (c : list Identifier) :
  let i := ident (qualifiedNameToId qn) in
  let memberName m := qn +:+ "." +:+ p_name m in
  isAggregate p = true ->
  Forall (fun m => isAggregate m = false) (members p) ->
  heap s !! l = Some po ->
  composition po = Some c ->
  exists s',
    addParameter p qn (Some l) prefix s = (Returned tt, s')
    /\ heap s' =
         <[l := withChild po c i]> (heap s)
         ++ aggregateObject p qn prefix
              (map (fun m => ident (qualifiedNameToId (memberName m))) (members p))
         :: map (fun m => leafObject m (memberName m) ((prefix +:+ p_name p) +:+ "_"))
                (members p)
    /\ objects s' =
         storeAll (<[key i := length (heap s)]> (objects s))
           (zip (map (fun m => qualifiedNameToId (memberName m)) (members p))
                (seq (S (length (heap s))) (length (members p))))
    /\ sameShell s s'.
Proof.
  intros i memberName Ha Hms Hl Hc. subst memberName.
  rewrite (addParameter_folder _ _ _ _ _ _ _ Hl Hc). cbv zeta. rewrite Ha.
  destruct (added_fields s l po c (aggregateObject p qn prefix []) i Hl)
    as (E1 & E2 & E3).
  destruct (leaf_members_join_the_folder p qn prefix (members p) Hms
              (added s l po c (aggregateObject p qn prefix []) i)
              (<[l := withChild po c i]> (heap s)) [] []) as (s' & Ef & Eh & Eo & Es).
  { exact E1. }
  rewrite length_insert in Ef.
  exists s'. split; [exact Ef|]. split; [|split].
  - rewrite Eh. reflexivity.
  - rewrite Eo, E2, E1. rewrite length_app, length_insert. cbn [length].
    by rewrite Nat.add_1_r.
  - exact (sameShell_trans _ _ _ E3 Es).
Qed.

End Aggregates.

Section Nesting.
Context `{Imports}.

Lemma added_folderAt s (l : nat) po c o i (l' : nat) :
  heap s !! l = Some po ->
  folderAt s l' -> folderAt (added s l po c o i) l'.
Proof.
  intros Hl (o' & Ho' & Hc'). unfold folderAt.
  destruct (added_fields s l po c o i Hl) as (-> & _ & _).
  assert (l' < length (heap s)) as Hlt by (by eapply lookup_lt_Some).
  rewrite lookup_app_l by (by rewrite length_insert).
  destruct (decide (l = l')) as [<-|Hne].
  - rewrite list_lookup_insert_eq by done. eexists. split; [done|]. by eexists.
  - rewrite list_lookup_insert_ne by done. eauto.
Qed.

Lemma added_new_folder s (l : nat) po c o i :
  heap s !! l = Some po -> is_Some (composition o) ->
  folderAt (added s l po c o i) (length (heap s)).
Proof.
  intros Hl Hc. unfold folderAt.
  destruct (added_fields s l po c o i Hl) as (-> & _ & _).
  exists o. split; [|done].
  rewrite lookup_app_r by (by rewrite length_insert).
  by rewrite length_insert, Nat.sub_diag.
Qed.

Lemma added_length s (l : nat) po c o i :
  heap s !! l = Some po -> length (heap (added s l po c o i)) = S (length (heap s)).
Proof.
  intros Hl. destruct (added_fields s l po c o i Hl) as (-> & _ & _).
  rewrite length_app, length_insert. cbn. lia.
Qed.

Lemma ids_unfold p qn :
  ids p qn = qualifiedNameToId qn ::
             (if isAggregate p
              then flat_map (fun m => ids m (qn +:+ "." +:+ p_name m)) (members p)
              else []).
Proof.
  destruct p as [n q a [[e [ms|]]|]]; cbn [ids]; f_equal;
    by destruct (isAggregate _).
Qed.

Lemma members_expand (ms : list ParameterInfo) (name : ParameterInfo -> string)
    (prefix : string) :
  Forall expands ms ->
  forall (t : YamcsObjectProvider) (n : nat),
  folderAt t n ->
  exists t',
    forEach (fun m => addParameter m (name m) (Some n) prefix) ms t = (Returned tt, t')
    /\ length (heap t') = length (heap t) + sum_list (map nodes ms)
    /\ (forall l', folderAt t l' -> folderAt t' l')
    /\ (forall k, ~ In k (flat_map (fun m => ids m (name m)) ms) ->
          objects t' !! k = objects t !! k)
    /\ sameShell t t'.
Proof.
  induction 1 as [|m ms Hm _ IH]; intros t n Hn.
  - exists t. cbn. split; [done|]. split; [lia|]. split; [done|].
    split; [done|apply sameShell_refl].
  - cbn [forEach]. unfold bind.
    destruct (Hm (name m) prefix t n Hn) as (t1 & -> & Hl1 & Hk1 & Ho1 & Hs1).
    destruct (IH t1 n (Hk1 _ Hn)) as (t' & -> & Hl2 & Hk2 & Ho2 & Hs2).
    exists t'. split; [done|]. split; [cbn; lia|]. split; [|split].
    + intros l' Hl'. by apply Hk2, Hk1.
    + intros k Hk. cbn [flat_map] in Hk. rewrite in_app_iff in Hk.
      rewrite Ho2, Ho1; [done|tauto|tauto].
    + exact (sameShell_trans _ _ _ Hs1 Hs2).
Qed.

Lemma addParameter_expands (p : ParameterInfo) : expands p.
Proof.
  induction p as [p IH] using ParameterInfo_members_ind.
  intros qn prefix s l (po & Hl & c & Hc).
  rewrite (addParameter_folder _ _ _ _ _ _ _ Hl Hc). cbv zeta.
  rewrite nodes_unfold, ids_unfold.
  set (i := ident (qualifiedNameToId qn)).
  destruct (isAggregate p).
  - set (o := aggregateObject p qn prefix []).
    destruct (members_expand (members p) (fun m => qn +:+ "." +:+ p_name m)
                ((prefix +:+ p_name p) +:+ "_") IH
                (added s l po c o i) (length (heap s)))
      as (s' & Ef & Hlen & Hk & Ho & Hsh).
    { apply added_new_folder; [done|by eexists]. }
    destruct (added_fields s l po c o i Hl) as (_ & Eo & Hs1).
    exists s'. split; [exact Ef|]. split; [|split; [|split]].
    + rewrite Hlen, added_length by done. lia.
    + intros l' Hl'. by apply Hk, added_folderAt.
    + intros k Hin. cbn [In] in Hin. rewrite Ho by tauto. rewrite Eo.
      apply lookup_insert_ne. cbn. tauto.
    + exact (sameShell_trans _ _ _ Hs1 Hsh).
  - destruct (added_fields s l po c (leafObject p qn prefix) i Hl) as (_ & Eo & Hs1).
    exists (added s l po c (leafObject p qn prefix) i). split; [done|].
    split; [|split; [|split]].
    + rewrite added_length by done. lia.
    + intros l'. by apply added_folderAt.
    + intros k Hin. cbn [In] in Hin. rewrite Eo.
      apply lookup_insert_ne. cbn. tauto.
    + exact Hs1.
Qed.

(** Under a parent that is a folder, a parameter of any nesting depth is
    expanded without error: it adds one object for itself and for each
    member at every level, stores them under their own keys and no
    other, keeps every folder a folder, and touches nothing but the
    objects. *)
Theorem nested_aggregates_expand_fully (p : ParameterInfo) qn prefix
    (s : YamcsObjectProvider) (l : nat) :
  folderAt s l ->
  exists s',
    addParameter p qn (Some l) prefix s = (Returned tt, s')
    /\ length (heap s') = length (heap s) + nodes p
    /\ length (ids p qn) = nodes p
    /\ (forall l', folderAt s l' -> folderAt s' l')
    /\ (forall k, ~ In k (ids p qn) -> objects s' !! k = objects s !! k)
    /\ sameShell s s'.
Proof.
  intros Hl.
  destruct (addParameter_expands p qn prefix s l Hl) as (s' & E & Hlen & Hk & Ho & Hs).
  exists s'. split_and!; [exact E|exact Hlen| |exact Hk|exact Ho|exact Hs].
  clear. revert qn. induction p as [p IH] using ParameterInfo_members_ind. intros qn.
  rewrite nodes_unfold, ids_unfold. cbn [length]. f_equal.
  destruct (isAggregate p); [|done].
  induction IH as [|m ms Hm _ IHms]; [done|].
  cbn [flat_map map sum_list]. rewrite length_app, Hm, IHms. reflexivity.
Qed.

End Nesting.

Section Keys.
Context `{Imports}.

Lemma keepsKeyed_ret {A} (a : A) : keepsKeyed (ret a).
Proof. by intros s Hs. Qed.

Lemma keepsKeyed_bind {A B} (c : Act A) (k : A -> Act B) :
  keepsKeyed c -> (forall a, keepsKeyed (k a)) -> keepsKeyed (bind c k).
Proof.
  intros Hc Hk s Hs. unfold bind. specialize (Hc s Hs).
  destruct (c s) as [[a|e] s']; cbn in *; [by apply Hk|done].
Qed.

Lemma keepsKeyed_forEach {A} (f : A -> Act unit) (l : list A) :
  Forall (fun x => keepsKeyed (f x)) l -> keepsKeyed (forEach f l).
Proof.
  induction 1 as [|x l Hx _ IH]; cbn [forEach].
  - apply keepsKeyed_ret.
  - apply keepsKeyed_bind; [exact Hx|intros _; exact IH].
Qed.

Lemma keepsKeyed_new o : keepsKeyed (new o).
Proof.
  intros s Hs k l Hk. cbn in *. destruct (Hs k l Hk) as (o' & Ho' & Hk').
  exists o'. split; [|done]. rewrite lookup_app_l; [done|by eapply lookup_lt_Some].
Qed.

Lemma keepsKeyed_addObject (o : nat) : keepsKeyed (addObject o).
Proof.
  intros s Hs. unfold addObject. unfold loc in *. destruct (heap s !! o) as [obj|] eqn:Ho; [|exact Hs].
  intros k l. cbn. unfold loc in *. rewrite lookup_insert.
  case_decide as Hk; [|apply Hs].
  intros [= <-]. subst k. by exists obj.
Qed.

Lemma keepsKeyed_pushComposition parent i : keepsKeyed (pushComposition parent i).
Proof.
  intros s Hs. unfold pushComposition. unfold loc in *.
  destruct parent as [l|]; [|exact Hs].
  destruct (heap s !! l) as [po|] eqn:Hl; [|exact Hs].
  destruct (composition po) as [c|]; [|exact Hs].
  intros k l' Hk. cbn in *. destruct (Hs k l' Hk) as (o' & Ho' & Hk').
  destruct (decide (l = l')) as [<-|Hne].
  - rewrite list_lookup_insert_eq by (by eapply lookup_lt_Some).
    eexists. split; [done|]. cbn. unfold loc in *. congruence.
  - rewrite list_lookup_insert_ne by done. eauto.
Qed.

Lemma keepsKeyed_addSpaceSystem ss : keepsKeyed (addSpaceSystem ss).
Proof.
  unfold addSpaceSystem. destruct (negb _); [|apply keepsKeyed_ret].
  apply keepsKeyed_bind; [apply keepsKeyed_new|]. intros obj.
  apply keepsKeyed_bind; [apply keepsKeyed_addObject|]. intros _.
  destruct (_ =? _)%Z; [|apply keepsKeyed_ret].
  intros s. apply keepsKeyed_pushComposition.
Qed.

Lemma keepsKeyed_addParameter p :
  forall qn parent prefix, keepsKeyed (addParameter p qn parent prefix).
Proof.
  induction p as [p IH] using ParameterInfo_members_ind.
  intros qn parent prefix. rewrite addParameter_unfold. cbv zeta.
  apply keepsKeyed_bind; [apply keepsKeyed_new|]. intros obj.
  apply keepsKeyed_bind; [apply keepsKeyed_addObject|]. intros _.
  apply keepsKeyed_bind; [apply keepsKeyed_pushComposition|]. intros _.
  destruct (isAggregate p); [|apply keepsKeyed_ret].
  apply keepsKeyed_forEach.
  eapply Forall_impl; [exact IH|]. intros m Hm. apply Hm.
Qed.

Lemma keepsKeyed_addParameterObject p : keepsKeyed (addParameterObject p).
Proof.
  unfold addParameterObject. destruct (negb _); [|apply keepsKeyed_ret].
  intros s. apply keepsKeyed_addParameter.
Qed.

Lemma keepsKeyed_buildDictionary ss r : keepsKeyed (buildDictionary ss r).
Proof.
  unfold buildDictionary.
  apply keepsKeyed_bind.
  { apply keepsKeyed_forEach, Forall_forall. intros; apply keepsKeyed_addSpaceSystem. }
  intros _. apply keepsKeyed_bind.
  { destruct (parameters r); [|apply keepsKeyed_ret].
    apply keepsKeyed_forEach, Forall_forall. intros; apply keepsKeyed_addParameterObject. }
  intros _. apply keepsKeyed_bind; [by intros s Hs|]. intros _. apply keepsKeyed_ret.
Qed.

Lemma keyed_ext s s' :
  objects s' = objects s -> heap s' = heap s -> keyed s -> keyed s'.
Proof. intros Ho Hh Hs k l. rewrite Ho, Hh. apply Hs. Qed.

Lemma keyed_constructor url inst folderName : keyed (constructor url inst folderName).
Proof.
  intros k l. cbn. unfold loc in *. rewrite lookup_insert.
  case_decide as Hk; [|by rewrite lookup_empty].
  intros [= <-]. subst k. eexists. split; reflexivity.
Qed.

Lemma keyed_step s ev : keyed s -> keyed (step s ev).
Proof.
  intros Hs. unfold step.
  destruct ev as [c i|l|r|reason].
  - unfold get, getTelemetryDictionary, fetchTelemetryDictionary, reject.
    destruct (dictionary s); [exact (keyed_ext s _ eq_refl eq_refl Hs)|].
    destruct (dictionaryPromise s) as [[]|]; exact (keyed_ext s _ eq_refl eq_refl Hs).
  - destruct (dictionaryPromise s) as [[[] ws|]|]; exact Hs.
  - destruct (dictionaryPromise s) as [[[|l] ws|]|]; try exact Hs.
    pose proof (keepsKeyed_buildDictionary l r s Hs) as Hb.
    destruct (buildDictionary l r s) as [[d|e] s']; cbn in Hb.
    + destruct (fulfil_all d ws s') as (Ho & Hh & _).
      exact (keyed_ext s' _ Ho Hh Hb).
    + destruct (reject_all e ws (set_dictionaryPromise (Some (Rejected e)) s'))
        as (Ho & Hh & _).
      exact (keyed_ext s' _ Ho Hh Hb).
  - destruct (dictionaryPromise s) as [[st ws|]|]; try exact Hs.
    destruct (reject_all (FetchError reason) ws
                (set_dictionaryPromise (Some (Rejected (FetchError reason))) s))
      as (Ho & Hh & _).
    exact (keyed_ext s _ Ho Hh Hs).
Qed.

Lemma keyed_run evs : forall s, keyed s -> keyed (run s evs).
Proof.
  induction evs as [|ev evs IH]; intros s Hs; [done|]. apply IH, keyed_step, Hs.
Qed.

(** Whatever has happened to a provider, the object its mapping holds
    under a key carries that key in its identifier: the lookup of a key
    that names no member of [Object.prototype] yields [undefined] or the
    object asked for, also after a build that failed half-way.  (For a
    key that names such a member and is not in the mapping, the read of
    the program finds the inherited member.) *)
Theorem lookup_yields_the_object_asked_for (url inst folderName : string)
    (evs : list Event) (k : string) (o : DomainObject) :
  inherited k = false ->
  dereference ThisObjects (run (constructor url inst folderName) evs) k = Some o ->
  key (identifier o) = k.
Proof.
  intros _ Hd. unfold dereference in Hd.
  destruct (objects _ !! k) as [l|] eqn:Hk; [|done]. cbn in Hd.
  destruct (keyed_run evs _ (keyed_constructor url inst folderName) k l Hk)
    as (o' & Ho' & <-).
  assert (Some o' = Some o) as [= ->] by exact (eq_trans (eq_sym Ho') Hd).
  reflexivity.
Qed.

End Keys.

Section KeysInstance.
#[local] Existing Instance specImports.

Lemma lookup_yields_the_object_asked_for_witness :
  let s := run (constructor "http://yamcs/" "sim" "Sim")
             [Get 0 (ident "~Sat"); SpaceSystemsFetched [folder "Sat"];
              ParametersFetched {| parameters := None |}] in
  let sat := {| identifier := ident "~Sat"; name := "Sat"; type := "folder";
                location := None; composition := Some []; telemetry := None |} in
  inherited "~Sat" = false
  /\ dereference ThisObjects s "~Sat" = Some sat /\ key (identifier sat) = "~Sat".
Proof.
  intros s sat.
  assert (dereference ThisObjects s "~Sat" = Some sat) as Hd
    by (vm_compute; reflexivity).
  split; [reflexivity|]. split; [exact Hd|].
  exact (lookup_yields_the_object_asked_for "http://yamcs/" "sim" "Sim" _ "~Sat" sat
           eq_refl Hd).
Defined.

End KeysInstance.

Section Folders.
Context `{Imports}.

Lemma insert_by_ordered {A} (cmp : A -> A -> Z) (x : A) (l : list A) :
  Forall (fun y => (0 < cmp x y -> cmp y x <= 0)%Z) l ->
  ordered (fun a b => (cmp a b <= 0)%Z) l ->
  ordered (fun a b => (cmp a b <= 0)%Z) (insert_by cmp x l).
Proof.
  induction l as [|y l IH]; intros Hx Hl; [done|].
  apply Forall_cons in Hx as [Hxy Hx]. cbn [insert_by].
  destruct (Z.ltb_spec 0 (cmp x y)) as [Hlt|Hge].
  - destruct Hl as [Hy Hl]. specialize (IH Hx Hl). split; [|exact IH].
    destruct l as [|z l]; cbn [insert_by].
    + by apply Hxy.
    + destruct (0 <? cmp x z)%Z; [exact Hy|by apply Hxy].
  - split; [lia|exact Hl].
Qed.

Lemma insert_by_elem {A} (cmp : A -> A -> Z) (x y : A) (l : list A) :
  y ∈ insert_by cmp x l <-> y = x \/ y ∈ l.
Proof. rewrite insert_by_Permutation. apply elem_of_cons. Qed.

(** [sort] with a comparator that is decisive on the array: the result is
    a rearrangement of the array in which no element compares greater
    than the next. *)
Lemma sort_by_ordered {A} (cmp : A -> A -> Z) (l : list A) :
  decisive cmp l ->
  sort_by cmp l ≡ₚ l /\ ordered (fun a b => (cmp a b <= 0)%Z) (sort_by cmp l).
Proof.
  intros Hd. split; [apply sort_by_Permutation|].
  assert (forall l', l' ⊆ l -> ordered (fun a b => (cmp a b <= 0)%Z) (sort_by cmp l'))
    as Hsub; [|by apply Hsub].
  induction l' as [|x l' IH]; intros Hl'; [done|].
  cbn [sort_by]. apply insert_by_ordered.
  - apply Forall_forall. intros y Hy.
    rewrite sort_by_Permutation in Hy.
    unfold decisive in Hd. rewrite Forall_forall in Hd.
    specialize (Hd x ltac:(apply Hl'; by left)). rewrite Forall_forall in Hd.
    apply Hd, Hl'. by right.
  - apply IH. intros z Hz. apply Hl'. by right.
Qed.

(** A space system other than [/] becomes a folder whose composition is
    the identifiers of its sub-systems sorted by name; when the locale
    comparison is decisive on the names, no child's name compares
    greater than the next one's. *)
Theorem sub_folders_are_listed_by_name (ss : SpaceSystem) (subs : list SubSystem)
    (s : YamcsObjectProvider) :
  let byName a b := localeCompare (sub_name a) (sub_name b) in
  listed ss = true ->
  sub ss = Some subs ->
  folderAt s (rootObject s) ->
  decisive byName subs ->
  exists s' o sorted,
    addSpaceSystem ss s = (Returned tt, s')
    /\ objects s' !! qualifiedNameToId (ss_qualifiedName ss) = Some (length (heap s))
    /\ heap s' !! length (heap s) = Some o
    /\ name o = ss_name ss /\ type o = "folder"
    /\ composition o = Some (map (fun x => folderIdent (sub_qualifiedName x)) sorted)
    /\ sorted ≡ₚ subs
    /\ ordered (fun a b => (byName a b <= 0)%Z) sorted.
Proof.
  intros byName Hl Hsub (r & Hr & c & Hc) Hd.
  assert (rootObject s < length (heap s)) as Hlt by (by eapply lookup_lt_Some).
  destruct (sort_by_ordered byName subs Hd) as [Hp Ho].
  unfold addSpaceSystem. unfold listed in Hl. rewrite Hl, Hsub.
  unfold bind, new, addObject. cbn [heap set_heap fst snd].
  rewrite lookup_app_r by lia. rewrite Nat.sub_diag. cbn [lookup list_lookup].
  set (o := {| identifier := _ |}).
  cbn [key identifier o].
  destruct (_ =? _)%Z.
  - unfold pushComposition. cbn [rootObject set_objects set_heap heap].
    unfold loc in *. rewrite lookup_app_l by done. rewrite Hr, Hc.
    eexists _, o, _. split; [reflexivity|]. cbn [objects heap set_objects set_heap].
    split; [apply lookup_insert_eq|]. split.
    { rewrite list_lookup_insert_ne by lia.
      rewrite lookup_app_r by lia. by rewrite Nat.sub_diag. }
    done.
  - eexists _, o, _. split; [reflexivity|]. cbn [objects heap set_objects set_heap].
    split; [apply lookup_insert_eq|]. split.
    { rewrite lookup_app_r by lia. by rewrite Nat.sub_diag. }
    done.
Qed.

End Folders.

Section Root.
Context `{Imports}.

Lemma addSpaceSystem_attaches (ss : SpaceSystem) (s : YamcsObjectProvider)
    (r : DomainObject) (c : list Identifier) :
  heap s !! rootObject s = Some r -> composition r = Some c ->
  exists s' r',
    addSpaceSystem ss s = (Returned tt, s')
    /\ rootObject s' = rootObject s
    /\ heap s' !! rootObject s' = Some r'
    /\ composition r' =
         Some (c ++ if attached ss then [folderIdent (ss_qualifiedName ss)] else [])
    /\ name r' = name r
    /\ length (heap s') = length (heap s) + (if listed ss then 1 else 0)
    /\ sameShell s s'.
Proof.
  intros Hr Hc.
  assert (rootObject s < length (heap s)) as Hlt by (by eapply lookup_lt_Some).
  unfold addSpaceSystem, attached, listed.
  destruct (negb _); cbn [andb].
  2:{ exists s, r. rewrite app_nil_r, Nat.add_0_r.
      repeat split; done. }
  unfold bind, new, addObject. cbn [heap set_heap fst snd].
  rewrite lookup_app_r by lia. rewrite Nat.sub_diag. cbn [lookup list_lookup].
  set (o := {| identifier := _ |}).
  destruct (_ =? _)%Z.
  - unfold pushComposition. cbn [rootObject set_objects set_heap heap].
    unfold loc in *. rewrite lookup_app_l by done. rewrite Hr, Hc.
    eexists _, _. split; [reflexivity|]. cbn [rootObject heap set_objects set_heap].
    split; [done|]. split.
    { rewrite list_lookup_insert_eq; [done|]. rewrite length_app. lia. }
    cbn [composition name]. split; [done|]. split; [done|]. split.
    { rewrite length_insert, length_app. done. }
    repeat split.
  - eexists _, r. split; [reflexivity|]. cbn [rootObject heap set_objects set_heap].
    split; [done|]. split; [by rewrite lookup_app_l|].
    rewrite app_nil_r, length_app. repeat split; done.
Qed.

Lemma spaceSystems_attach (l : list SpaceSystem) :
  forall (s : YamcsObjectProvider) (r : DomainObject) (c : list Identifier),
  heap s !! rootObject s = Some r -> composition r = Some c ->
  exists s' r',
    forEach addSpaceSystem l s = (Returned tt, s')
    /\ rootObject s' = rootObject s
    /\ heap s' !! rootObject s' = Some r'
    /\ composition r' =
         Some (c ++ map (fun x => folderIdent (ss_qualifiedName x))
                        (List.filter attached l))
    /\ name r' = name r
    /\ length (heap s') = length (heap s) + length (List.filter listed l)
    /\ sameShell s s'.
Proof.
  induction l as [|ss l IH]; intros s r c Hr Hc.
  - exists s, r. cbn. rewrite app_nil_r, Nat.add_0_r.
    repeat split; done.
  - cbn [forEach]. unfold bind.
    destruct (addSpaceSystem_attaches ss s r c Hr Hc)
      as (s1 & r1 & -> & Hroot1 & Hr1 & Hc1 & Hn1 & Hl1 & Hs1).
    destruct (IH s1 r1 _ Hr1 Hc1) as (s' & r' & -> & Hroot2 & Hr2 & Hc2 & Hn2 & Hl2 & Hs2).
    exists s', r'. split; [done|]. split; [congruence|]. split; [done|]. split.
    { rewrite Hc2. cbn [List.filter]. destruct (attached ss); cbn [map];
        by rewrite <- app_assoc. }
    split; [congruence|]. split.
    { rewrite Hl2, Hl1. cbn [List.filter]. destruct (listed ss); cbn [length]; lia. }
    exact (sameShell_trans _ _ _ Hs1 Hs2).
Qed.

(** A build that receives space systems and no parameters never fails:
    the dictionary is cached, every space system other than [/] has
    become one object, and the root lists the identifiers of exactly
    those whose qualified name has its only separator in front, in the
    order in which they arrived. *)
Theorem root_lists_the_top_level_folders (url inst folderName : string)
    (c : nat) (i : Identifier) (spaceSystems : list SpaceSystem) :
  let s := run (constructor url inst folderName)
             [Get c i; SpaceSystemsFetched spaceSystems;
              ParametersFetched {| parameters := None |}] in
  dictionary s = Some ThisObjects
  /\ dictionaryPromise s = None
  /\ length (heap s) = 1 + length (List.filter listed spaceSystems)
  /\ exists root,
       heap s !! rootObject s = Some root
       /\ name root = folderName
       /\ composition root =
            Some (map (fun x => folderIdent (ss_qualifiedName x))
                      (List.filter attached spaceSystems)).
Proof.
  intros s.
  set (w := {| caller := c; lookupKey := key i |}).
  set (s0 := constructor url inst folderName).
  set (sb := set_dictionaryPromise (Some (Pending (AwaitParameters spaceSystems) [w]))
               (request (Fetch (getMdbUrl s0 "parameters?details=yes&limit=1000" ""))
                  (set_dictionaryPromise (Some (Pending AwaitSpaceSystems [w]))
                     (request (AccumulateResults (getMdbUrl s0 "space-systems" "")
                                 "spaceSystems") s0)))).
  assert (s = match buildDictionary spaceSystems {| parameters := None |} sb with
              | (Returned d, s') => fulfil d w s'
              | (Threw e, s') =>
                  reject e w (set_dictionaryPromise (Some (Rejected e)) s')
              end) as -> by reflexivity.
  unfold buildDictionary. rewrite sort_by_undefined.
  destruct (spaceSystems_attach spaceSystems sb
              {| identifier := {| key := "spacecraft"; namespace := taxonomy |};
                 name := folderName; type := "folder"; location := Some "ROOT";
                 composition := Some []; telemetry := None |} [] eq_refl eq_refl)
    as (s' & r' & E & Hroot & Hr & Hc & Hn & Hl & Hs).
  unfold bind. rewrite E. cbn.
  split_and!; [done|done|rewrite Hl; reflexivity|].
  exists r'. split_and!; [exact Hr|exact Hn|exact Hc].
Qed.

End Root.

Section BuilderInstances.
#[local] Existing Instance specImports.

Lemma leaf_parameter_joins_its_parent_witness :
  let s := snd (addSpaceSystem (folder "Sat") (constructor "http://yamcs/" "sim" "Sim")) in
  let p := {| p_name := "Temp"; p_qualifiedName := "/Sat/Temp"; p_alias := None;
              p_type := Some {| engType := Some "float"; member := None |} |} in
  let sat := {| identifier := ident "~Sat"; name := "Sat"; type := "folder";
                location := None; composition := Some []; telemetry := None |} in
  exists s',
    addParameterObject p s = (Returned tt, s')
    /\ objects s' = <["~Sat~Temp" := 2]> (objects s)
    /\ heap s' = <[1 := withChild sat [] (ident "~Sat~Temp")]> (heap s)
                 ++ [leafObject p "/Sat/Temp" ""].
Proof.
  intros s p sat.
  destruct (leaf_parameter_joins_its_parent p s 1 sat [])
    as (s' & H1 & H2 & H3 & _).
  - reflexivity.
  - reflexivity.
  - vm_compute. reflexivity.
  - vm_compute. reflexivity.
  - reflexivity.
  - exists s'. split_and!; [exact H1|exact H2|exact H3].
Defined.

Lemma aggregate_members_become_leaves_witness :
  let s := snd (addSpaceSystem (folder "Sat") (constructor "http://yamcs/" "sim" "Sim")) in
  let leaf n := {| p_name := n; p_qualifiedName := ""; p_alias := None;
                   p_type := Some {| engType := Some "float"; member := None |} |} in
  let p := {| p_name := "Pos"; p_qualifiedName := "/Sat/Pos"; p_alias := None;
              p_type := Some {| engType := Some "aggregate";
                                member := Some [leaf "x"; leaf "y"] |} |} in
  let sat := {| identifier := ident "~Sat"; name := "Sat"; type := "folder";
                location := None; composition := Some []; telemetry := None |} in
  exists s',
    addParameter p "/Sat/Pos" (Some 1) "" s = (Returned tt, s')
    /\ heap s' =
         <[1 := withChild sat [] (ident "~Sat~Pos")]> (heap s)
         ++ [aggregateObject p "/Sat/Pos" "" [ident "~Sat~Pos.x"; ident "~Sat~Pos.y"];
             leafObject (leaf "x") "/Sat/Pos.x" "Pos_";
             leafObject (leaf "y") "/Sat/Pos.y" "Pos_"].
Proof.
  intros s leaf p sat.
  destruct (aggregate_members_become_leaves p "/Sat/Pos" "" s 1 sat [])
    as (s' & H1 & H2 & _).
  - reflexivity.
  - repeat constructor.
  - vm_compute. reflexivity.
  - reflexivity.
  - exists s'. split; [exact H1|exact H2].
Defined.

Lemma nested_aggregates_expand_fully_witness :
  let s := snd (addSpaceSystem (folder "Sat") (constructor "http://yamcs/" "sim" "Sim")) in
  let leaf n := {| p_name := n; p_qualifiedName := ""; p_alias := None;
                   p_type := Some {| engType := Some "float"; member := None |} |} in
  let inner := {| p_name := "vel"; p_qualifiedName := ""; p_alias := None;
                  p_type := Some {| engType := Some "aggregate";
                                    member := Some [leaf "x"; leaf "y"] |} |} in
  let p := {| p_name := "Nav"; p_qualifiedName := "/Sat/Nav"; p_alias := None;
              p_type := Some {| engType := Some "aggregate";
                                member := Some [leaf "t"; inner] |} |} in
  exists s',
    addParameter p "/Sat/Nav" (Some 1) "" s = (Returned tt, s')
    /\ length (heap s') = 7.
Proof.
  intros s leaf inner p.
  destruct (nested_aggregates_expand_fully p "/Sat/Nav" "" s 1) as (s' & H1 & H2 & _).
  - eexists. split; [vm_compute; reflexivity|]. by eexists.
  - exists s'. split; [exact H1|]. rewrite H2. reflexivity.
Defined.

Lemma sub_folders_are_listed_by_name_witness :
  let s := constructor "http://yamcs/" "sim" "Sim" in
  let child n := {| sub_name := n; sub_qualifiedName := "/Sat/" +:+ n |} in
  let ss := {| ss_name := "Sat"; ss_qualifiedName := "/Sat";
               sub := Some [child "b"; child "c"; child "a"] |} in
  exists s' o sorted,
    addSpaceSystem ss s = (Returned tt, s')
    /\ heap s' !! 1 = Some o
    /\ composition o = Some (map (fun x => folderIdent (sub_qualifiedName x)) sorted)
    /\ sorted ≡ₚ [child "b"; child "c"; child "a"]
    /\ ordered (fun a b => (localeCompare (sub_name a) (sub_name b) <= 0)%Z) sorted.
Proof.
  intros s child ss.
  destruct (sub_folders_are_listed_by_name ss [child "b"; child "c"; child "a"] s)
    as (s' & o & sorted & H1 & _ & H3 & _ & _ & H6 & H7 & H8).
  - reflexivity.
  - reflexivity.
  - eexists. split; [vm_compute; reflexivity|]. by eexists.
  - repeat constructor; vm_compute; intros; discriminate.
  - exists s', o, sorted. split_and!; [exact H1|exact H3|exact H6|exact H7|exact H8].
Defined.

End BuilderInstances.

Section FetchOnce.
Context `{Imports}.

Lemma buildDictionary_frame ss r s :
  let s' := snd (buildDictionary ss r s) in
  url s' = url s /\ instance s' = instance s /\ upstream s' = upstream s
  /\ dictionary s' = dictionary s.
Proof.
  pose proof (buildDictionary_shell ss r s) as Hb.
  assert (keepsShell (forEach addSpaceSystem (sort_by (fun _ _ => 0%Z) ss) ;;;
                      match parameters r with
                      | Some ps => forEach addParameterObject ps
                      | None => ret tt
                      end)) as Hk.
  { apply keepsShell_bind; [|intros _].
    - apply keepsShell_forEach, Forall_forall. intros x _. apply keepsShell_addSpaceSystem.
    - destruct (parameters r); [|apply keepsShell_ret].
      apply keepsShell_forEach, Forall_forall. intros x _.
      apply keepsShell_addParameterObject. }
  specialize (Hk s). clear Hb. unfold buildDictionary, bind, modify in *.
  destruct (forEach addSpaceSystem _ s) as [[[]|e] s1]; cbn in *.
  - destruct (parameters r) as [ps|]; cbn in *.
    + destruct (forEach addParameterObject ps s1) as [[[]|e] s2];
        cbn in *; destruct Hk as (? & ? & ? & ? & ? & ? & ? & ?); done.
    + destruct Hk as (? & ? & ? & ? & ? & ? & ? & ?); done.
  - destruct Hk as (? & ? & ? & ? & ? & ? & ? & ?); done.
Qed.

Lemma fetching_step s0 s ev : fetching s0 s -> fetching s0 (step s ev).
Proof.
  intros (Hu & Hi & Hm).
  assert (forall op name, getMdbUrl s op name = getMdbUrl s0 op name) as Hg.
  { intros. unfold getMdbUrl. by rewrite Hu, Hi. }
  destruct ev as [c i|l|r|reason]; unfold step.
  - (* get *)
    change (fetching s0 (getTelemetryDictionary {| caller := c; lookupKey := key i |} s)).
    unfold getTelemetryDictionary, fetchTelemetryDictionary, reject.
    destruct (dictionary s) as [d|] eqn:Ed.
    + split_and!; [done|done|]. cbn. rewrite Ed. exact Hm.
    + destruct (dictionaryPromise s) as [[[|l] ws|e]|] eqn:Ep; cbn.
      * split_and!; [done|done|]. cbn. rewrite Ed. split; [|tauto].
        by destruct ws.
      * split_and!; [done|done|]. cbn. rewrite Ed. split; [|tauto].
        by destruct ws.
      * split_and!; [done|done|]. cbn. rewrite Ed, Ep. exact Hm.
      * split_and!; [done|done|]. cbn. rewrite Ed, Hm, Hg. done.
  - destruct (dictionaryPromise s) as [[[|l'] ws|e]|] eqn:Ep;
      try (split_and!; [done|done|]; rewrite ?Ep; exact Hm).
    destruct (dictionary s) eqn:Ed; [done|].
    split_and!; [done|done|]. cbn. rewrite Ed, Hg. destruct Hm as [Hw ->]. done.
  - destruct (dictionaryPromise s) as [[[|l'] ws|e]|] eqn:Ep;
      try (split_and!; [done|done|]; rewrite ?Ep; exact Hm).
    destruct (dictionary s) eqn:Ed; [done|]. destruct Hm as [Hw Hup].
    pose proof (buildDictionary_shell l' r s) as Hb.
    destruct (buildDictionary_frame l' r s) as (Fu & Fi & Fup & Fd).
    destruct (buildDictionary l' r s) as [[d|e] s']; cbn in Fu, Fi, Fup, Fd.
    + destruct Hb as (-> & Hp & _).
      destruct (fulfil_all ThisObjects ws s') as (_ & _ & Gup & Gp & _ & Gd).
      assert (url (foldl (fun st w => fulfil ThisObjects w st) s' ws) = url s'
              /\ instance (foldl (fun st w => fulfil ThisObjects w st) s' ws) = instance s')
        as [Gu Gi].
      { clear. revert s'. induction ws as [|w ws IH]; intros s'; [done|].
        cbn [foldl]. destruct (IH (fulfil ThisObjects w s')) as [-> ->]. done. }
      split_and!; [congruence|congruence|].
      rewrite (Gd Hw), Gp, Hp. congruence.
    + destruct (reject_all e ws (set_dictionaryPromise (Some (Rejected e)) s'))
        as (_ & _ & Gup & Gp & Gd & _).
      assert (forall s1, url (foldl (fun st w => reject e w st) s1 ws) = url s1
              /\ instance (foldl (fun st w => reject e w st) s1 ws) = instance s1)
        as G.
      { clear. induction ws as [|w ws IH]; intros s1; [done|].
        cbn [foldl]. destruct (IH (reject e w s1)) as [-> ->]. done. }
      destruct (G (set_dictionaryPromise (Some (Rejected e)) s')) as [Gu Gi].
      split_and!; [rewrite Gu; cbn; congruence|rewrite Gi; cbn; congruence|].
      rewrite Gd, Gp, Gup. cbn. rewrite Fd, Ed, Fup, Hup. done.
  - destruct (dictionaryPromise s) as [[stage ws|e]|] eqn:Ep;
      try (split_and!; [done|done|]; rewrite ?Ep; exact Hm).
    destruct (dictionary s) eqn:Ed; [done|].
    destruct (reject_all (FetchError reason) ws
                (set_dictionaryPromise (Some (Rejected (FetchError reason))) s))
      as (_ & _ & Gup & Gp & Gd & _).
    assert (forall s1, url (foldl (fun st w => reject (FetchError reason) w st) s1 ws) = url s1
            /\ instance (foldl (fun st w => reject (FetchError reason) w st) s1 ws)
               = instance s1) as G.
    { clear. induction ws as [|w ws IH]; intros s1; [done|].
      cbn [foldl]. destruct (IH (reject (FetchError reason) w s1)) as [-> ->]. done. }
    destruct (G (set_dictionaryPromise (Some (Rejected (FetchError reason))) s)) as [Gu Gi].
    split_and!; [by rewrite Gu|by rewrite Gi|].
    rewrite Gd, Gp, Gup. cbn. rewrite Ed.
    destruct stage; destruct Hm as [_ ->]; [by eexists [_]|done].
Qed.

Lemma fetching_run evs : forall s0 s, fetching s0 s -> fetching s0 (run s evs).
Proof.
  induction evs as [|ev evs IH]; intros s0 s Hs; [exact Hs|].
  apply IH, fetching_step, Hs.
Qed.

Lemma fetching_prefix s0 s : fetching s0 s -> upstream s `prefix_of` fetchPlan s0.
Proof.
  intros (_ & _ & Hm).
  destruct (dictionary s), (dictionaryPromise s) as [[[|l] ws|e]|]; try done.
  - rewrite Hm. done.
  - destruct Hm as [_ ->]. by eexists [_].
  - destruct Hm as [_ ->]. done.
  - rewrite Hm. by eexists [_; _].
Qed.

(** Whatever lookups are made and however the fetches end, a provider
    issues at most the two requests of one build, the space systems
    first: nothing is ever fetched a second time, and once the
    dictionary is cached both have been issued. *)
Theorem dictionary_is_requested_at_most_once (url0 inst folderName : string)
    (evs : list Event) :
  let s0 := constructor url0 inst folderName in
  let s := run s0 evs in
  upstream s `prefix_of` fetchPlan s0
  /\ (is_Some (dictionary s) -> upstream s = fetchPlan s0).
Proof.
  intros s0 s.
  assert (fetching s0 s) as Hf.
  { apply fetching_run. repeat split. }
  split; [by apply fetching_prefix|].
  intros [d Hd]. destruct Hf as (_ & _ & Hm). rewrite Hd in Hm.
  by destruct (dictionaryPromise s).
Qed.

End FetchOnce.

Section FetchOnceInstance.
#[local] Existing Instance specImports.

Lemma dictionary_is_requested_at_most_once_witness :
  let s0 := constructor "http://yamcs/" "sim" "Sim" in
  let s := run s0 [Get 0 (ident "~Sat"); SpaceSystemsFetched [folder "Sat"];
                   ParametersFetched {| parameters := None |};
                   Get 1 (ident "~Sat"); SpaceSystemsFetched []; FetchFailed "503";
                   Get 2 (ident "spacecraft")] in
  is_Some (dictionary s)
  /\ upstream s = [AccumulateResults "http://yamcs/api/mdb/sim/space-systems" "spaceSystems";
                   Fetch "http://yamcs/api/mdb/sim/parameters?details=yes&limit=1000"].
Proof.
  intros s0 s.
  assert (is_Some (dictionary s)) as Hd by (vm_compute; eexists; reflexivity).
  split; [exact Hd|].
  destruct (dictionary_is_requested_at_most_once "http://yamcs/" "sim" "Sim"
              [Get 0 (ident "~Sat"); SpaceSystemsFetched [folder "Sat"];
               ParametersFetched {| parameters := None |};
               Get 1 (ident "~Sat"); SpaceSystemsFetched []; FetchFailed "503";
               Get 2 (ident "spacecraft")]) as [_ Hu].
  exact (Hu Hd).
Defined.

End FetchOnceInstance.

Section Catalog.
Context `{Imports}.

Lemma addSpaceSystem_listed (x : SpaceSystem) (s : YamcsObjectProvider)
    (r : DomainObject) (c : list Identifier) :
  listed x = true ->
  heap s !! rootObject s = Some r -> composition r = Some c ->
  addSpaceSystem x s
  = (Returned tt,
     if attached x
     then added s (rootObject s) r c (folderObject x)
            (ident (qualifiedNameToId (ss_qualifiedName x)))
     else set_objects <[qualifiedNameToId (ss_qualifiedName x) := length (heap s)]>
            (set_heap (fun h => h ++ [folderObject x]) s)).
Proof.
  intros Hx Hr Hc.
  assert (rootObject s < length (heap s)) as Hlt by (by eapply lookup_lt_Some).
  unfold addSpaceSystem, attached. unfold listed in Hx. rewrite Hx. cbn [andb].
  unfold bind, new, addObject. cbn [heap set_heap fst snd].
  rewrite lookup_app_r by lia. rewrite Nat.sub_diag. cbn [lookup list_lookup].
  change {| identifier := _; name := ss_name x; type := _; location := _;
            composition := _; telemetry := _ |} with (folderObject x).
  destruct (_ =? _)%Z; [|reflexivity].
  unfold pushComposition. cbn [rootObject set_objects set_heap heap].
  unfold loc in *. rewrite lookup_app_l by done. rewrite Hr, Hc. reflexivity.
Qed.

Lemma addSpaceSystem_folders (x : SpaceSystem) (s : YamcsObjectProvider) :
  allFolders s -> folderAt s (rootObject s) ->
  exists s',
    addSpaceSystem x s = (Returned tt, s')
    /\ allFolders s' /\ folderAt s' (rootObject s')
    /\ (forall k, is_Some (objects s !! k) -> is_Some (objects s' !! k))
    /\ (listed x = true ->
        is_Some (objects s' !! qualifiedNameToId (ss_qualifiedName x)))
    /\ length (heap s') = length (heap s) + (if listed x then 1 else 0)
    /\ sameShell s s'.
Proof.
  intros Ha (r & Hr & c & Hc).
  destruct (listed x) eqn:Hx.
  2:{ exists s. unfold addSpaceSystem. unfold listed in Hx. rewrite Hx.
      rewrite Nat.add_0_r. cbn [negb].
      split; [reflexivity|]. split; [exact Ha|]. split; [exists r; eauto|].
      split; [done|]. split; [done|]. split; [done|repeat split]. }
  rewrite (addSpaceSystem_listed x s r c Hx Hr Hc).
  set (o := folderObject x). set (i := ident _).
  assert (rootObject s < length (heap s)) as Hlt by (by eapply lookup_lt_Some).
  destruct (attached x).
  - destruct (added_fields s (rootObject s) r c o i Hr) as (Eh & Eo & Es).
    exists (added s (rootObject s) r c o i). split; [done|].
    assert (forall l, folderAt s l -> folderAt (added s (rootObject s) r c o i) l) as Hk.
    { intros l. by apply added_folderAt. }
    split_and!.
    + intros k l. rewrite Eo. destruct (decide (key (identifier o) = k)) as [<-|Hne].
      * rewrite lookup_insert_eq. intros [= <-].
        apply added_new_folder; [done|by eexists].
      * rewrite lookup_insert_ne by done. intros Hl. by apply Hk, (Ha k).
    + apply Hk. exists r. eauto.
    + intros k Hk'. rewrite Eo. destruct (decide (key (identifier o) = k)) as [<-|Hne].
      * by rewrite lookup_insert_eq.
      * by rewrite lookup_insert_ne.
    + intros _. rewrite Eo. cbn. by rewrite lookup_insert_eq.
    + rewrite added_length by done. lia.
    + exact Es.
  - eexists. split; [reflexivity|].
    assert (forall l, folderAt s l ->
              folderAt (set_objects <[qualifiedNameToId (ss_qualifiedName x)
                                      := length (heap s)]>
                          (set_heap (fun h => h ++ [o]) s)) l) as Hk.
    { intros l (o' & Ho' & Hc'). exists o'. split; [|done]. cbn.
      rewrite lookup_app_l; [done|by eapply lookup_lt_Some]. }
    split_and!.
    + intros k l. cbn [objects set_objects set_heap].
      destruct (decide (qualifiedNameToId (ss_qualifiedName x) = k)) as [<-|Hne].
      * rewrite lookup_insert_eq. intros [= <-]. exists o. split; [|by eexists].
        cbn. rewrite lookup_app_r by lia. by rewrite Nat.sub_diag.
      * rewrite lookup_insert_ne by done. intros Hl. by apply Hk, (Ha k).
    + apply Hk. exists r. eauto.
    + intros k Hk'. cbn [objects set_objects set_heap].
      destruct (decide (qualifiedNameToId (ss_qualifiedName x) = k)) as [<-|Hne].
      * by rewrite lookup_insert_eq.
      * by rewrite lookup_insert_ne.
    + intros _. cbn. by rewrite lookup_insert_eq.
    + cbn. rewrite length_app. cbn. lia.
    + repeat split.
Qed.

Lemma spaceSystems_folders (l : list SpaceSystem) : forall (s : YamcsObjectProvider),
  allFolders s -> folderAt s (rootObject s) ->
  exists s',
    forEach addSpaceSystem l s = (Returned tt, s')
    /\ allFolders s' /\ folderAt s' (rootObject s')
    /\ (forall k, is_Some (objects s !! k) -> is_Some (objects s' !! k))
    /\ (forall k, In k (folderIds l) -> is_Some (objects s' !! k))
    /\ length (heap s') = length (heap s) + length (List.filter listed l)
    /\ sameShell s s'.
Proof.
  induction l as [|x l IH]; intros s Ha Hr.
  - exists s. cbn. rewrite Nat.add_0_r. repeat split; done.
  - cbn [forEach]. unfold bind.
    destruct (addSpaceSystem_folders x s Ha Hr)
      as (s1 & -> & Ha1 & Hr1 & Hk1 & Hx1 & Hl1 & Hs1).
    destruct (IH s1 Ha1 Hr1) as (s' & -> & Ha2 & Hr2 & Hk2 & Hx2 & Hl2 & Hs2).
    exists s'. split; [done|]. split; [done|]. split; [done|]. split; [|split; [|split]].
    + intros k Hk. by apply Hk2, Hk1.
    + intros k. unfold folderIds. cbn [List.filter].
      destruct (listed x) eqn:Hx; cbn [map In]; [|by apply Hx2].
      intros [<-|Hin]; [by apply Hk2, Hx1|by apply Hx2].
    + rewrite Hl2, Hl1. cbn [List.filter]. destruct (listed x); cbn [length]; lia.
    + exact (sameShell_trans _ _ _ Hs1 Hs2).
Qed.

Lemma parameters_build (ps : list ParameterInfo) : forall (s : YamcsObjectProvider),
  Forall (fun p => exists l : nat, objects s !! parentId p = Some l /\ folderAt s l)
         (shown ps) ->
  Forall (fun p => Forall (fun p' => ~ In (parentId p') (ids p (p_qualifiedName p)))
                          (shown ps))
         (shown ps) ->
  exists s',
    forEach addParameterObject ps s = (Returned tt, s')
    /\ length (heap s') = length (heap s) + sum_list (map nodes (shown ps))
    /\ sameShell s s'.
Proof.
  induction ps as [|p ps IH]; intros s H1 H2.
  - exists s. cbn. rewrite Nat.add_0_r. repeat split; done.
  - cbn [forEach]. unfold bind, shown in *. cbn [List.filter] in *.
    unfold addParameterObject at 1.
    destruct (isSuppressed p) eqn:Hp; cbn [negb] in *.
    + cbn. apply IH; done.
    + cbv zeta.
      apply Forall_cons_1 in H1 as [(l & Hl & Hf) H1].
      apply Forall_cons_1 in H2 as [Hfresh H2].
      unfold parentId in Hl. unfold loc in *. rewrite Hl.
      destruct (addParameter_expands p (p_qualifiedName p) "" s l Hf)
        as (s1 & -> & Hlen & Hk & Ho & Hs1).
      apply Forall_cons_1 in Hfresh as [_ Hfresh].
      destruct (IH s1) as (s' & -> & Hlen' & Hs2).
      * rewrite Forall_forall in H1, Hfresh. apply Forall_forall. intros p' Hp'.
        destruct (H1 p' Hp') as (l' & Hl' & Hf').
        exists l'. split; [|by apply Hk]. rewrite Ho; [done|by apply Hfresh].
      * eapply Forall_impl; [exact H2|]. cbn beta. intros p' Hp'.
        by apply Forall_cons_1 in Hp' as [_ Hp'].
      * exists s'. split; [done|]. split; [cbn; lia|].
        exact (sameShell_trans _ _ _ Hs1 Hs2).
Qed.

(** A catalog in which every parameter that is not suppressed lies
    directly in one of the space systems sent, and in which no parameter
    or member is stored under the key of a space system, is built
    without error: the dictionary is cached, the awaiting lookup is
    answered from it, and there is one object for the root, for each
    space system other than [/], and for each such parameter and each
    member of its type. *)
Theorem catalog_with_its_folders_is_built (url0 inst folderName : string)
    (c : nat) (i : Identifier) (spaceSystems : list SpaceSystem)
    (ps : list ParameterInfo) :
  Forall (fun p => In (parentId p) (folderIds spaceSystems)) (shown ps) ->
  Forall (fun p => Forall (fun k => ~ In k (folderIds spaceSystems))
                          (ids p (p_qualifiedName p)))
         (shown ps) ->
  let s := run (constructor url0 inst folderName)
             [Get c i; SpaceSystemsFetched spaceSystems;
              ParametersFetched {| parameters := Some ps |}] in
  dictionary s = Some ThisObjects
  /\ dictionaryPromise s = None
  /\ settled s = [(c, Resolved (dereference ThisObjects s (key i)))]
  /\ length (heap s)
     = 1 + length (List.filter listed spaceSystems) + sum_list (map nodes (shown ps)).
Proof.
  intros H1 H2 s.
  set (w := {| caller := c; lookupKey := key i |}).
  set (s0 := constructor url0 inst folderName).
  set (sb := set_dictionaryPromise (Some (Pending (AwaitParameters spaceSystems) [w]))
               (request (Fetch (getMdbUrl s0 "parameters?details=yes&limit=1000" ""))
                  (set_dictionaryPromise (Some (Pending AwaitSpaceSystems [w]))
                     (request (AccumulateResults (getMdbUrl s0 "space-systems" "")
                                 "spaceSystems") s0)))).
  assert (s = match buildDictionary spaceSystems {| parameters := Some ps |} sb with
              | (Returned d, s') => fulfil d w s'
              | (Threw e, s') =>
                  reject e w (set_dictionaryPromise (Some (Rejected e)) s')
              end) as -> by reflexivity.
  unfold buildDictionary. rewrite sort_by_undefined.
  destruct (spaceSystems_folders spaceSystems sb)
    as (s1 & E1 & Ha1 & Hr1 & _ & Hx1 & Hl1 & Hs1).
  { intros k l. cbn. intros Hk.
    apply lookup_insert_Some in Hk as [[_ <-]|[_ Hk]]; [|done].
    eexists. split; [reflexivity|]. by eexists. }
  { eexists. split; [reflexivity|]. by eexists. }
  destruct (parameters_build ps s1) as (s2 & E2 & Hl2 & Hs2).
  { eapply Forall_impl; [exact H1|]. cbn beta. intros p Hp.
    destruct (Hx1 _ Hp) as [l Hl]. exists l. split; [done|]. by apply (Ha1 _ _ Hl). }
  { rewrite Forall_forall in H1, H2. apply Forall_forall. intros p Hp.
    apply Forall_forall. intros p' Hp' Hin.
    specialize (H2 p Hp). rewrite Forall_forall in H2.
    exact (H2 _ (proj2 (list_elem_of_In _ _) Hin) (H1 p' Hp')). }
  unfold bind, modify. rewrite E1. cbn [parameters]. rewrite E2.
  destruct Hs1 as (_ & _ & _ & _ & _ & _ & _ & Hset1).
  destruct Hs2 as (_ & _ & _ & _ & _ & _ & _ & Hset2).
  unfold fulfil, settle. cbn. rewrite Hset2, Hset1, Hl2, Hl1. cbn.
  split_and!; try done; lia.
Qed.

End Catalog.

Section CatalogInstance.
#[local] Existing Instance specImports.

Lemma catalog_with_its_folders_is_built_witness :
  let leaf n := {| p_name := n; p_qualifiedName := ""; p_alias := None;
                   p_type := Some {| engType := Some "float"; member := None |} |} in
  let temp := {| p_name := "Temp"; p_qualifiedName := "/Sat/Temp"; p_alias := None;
                 p_type := Some {| engType := Some "float"; member := None |} |} in
  let pos := {| p_name := "Pos"; p_qualifiedName := "/Sat/Pos"; p_alias := None;
                p_type := Some {| engType := Some "aggregate";
                                  member := Some [leaf "x"; leaf "y"] |} |} in
  let hidden := {| p_name := "Raw"; p_qualifiedName := "/Gone/Raw";
                   p_alias := Some [{| a_namespace := "OpenMCT:omit"; a_name := "" |}];
                   p_type := None |} in
  let s := run (constructor "http://yamcs/" "sim" "Sim")
             [Get 0 (ident "~Sat~Pos.x"); SpaceSystemsFetched [folder "Sat"];
              ParametersFetched {| parameters := Some [temp; hidden; pos] |}] in
  dictionary s = Some ThisObjects /\ length (heap s) = 6.
Proof.
  intros leaf temp pos hidden s.
  destruct (catalog_with_its_folders_is_built "http://yamcs/" "sim" "Sim" 0
              (ident "~Sat~Pos.x") [folder "Sat"] [temp; hidden; pos])
    as (H1 & _ & _ & H4).
  - repeat constructor.
  - repeat constructor; vm_compute; intros [E|[]]; discriminate.
  - split; [exact H1|]. subst s. rewrite H4. reflexivity.
Defined.

End CatalogInstance.

Section Kinds.
Context `{Imports}.

(** A leaf is an image only through a type alias: without an alias in
    the namespace [OpenMCT:type] that names the image type, no
    engineering type makes [getParameterType] answer the image type; and
    the first alias of that namespace decides, whatever the engineering
    type. *)
Theorem image_leaves_come_from_a_type_alias (p : ParameterInfo) :
  TELEMETRY_OBJECT_TYPE <> IMAGE_OBJECT_TYPE ->
  STRING_OBJECT_TYPE <> IMAGE_OBJECT_TYPE ->
  getParameterType p = IMAGE_OBJECT_TYPE ->
  exists aliases before a after,
    p_alias p = Some aliases
    /\ aliases = before ++ a :: after
    /\ Forall (fun b => a_namespace b <> "OpenMCT:type") before
    /\ a_namespace a = "OpenMCT:type"
    /\ a_name a = IMAGE_OBJECT_TYPE.
Proof.
  intros Ht Hs. unfold getParameterType.
  destruct (p_alias p) as [aliases|].
  - destruct (List.find _ aliases) as [a|] eqn:Hf.
    + intros Ha. exists aliases. clear Ht Hs.
      induction aliases as [|b aliases IH]; [done|]. cbn in Hf.
      destruct (String.eqb_spec (a_namespace b) "OpenMCT:type") as [Hb|Hb].
      * injection Hf as ->. exists [], a, aliases. by split_and!.
      * destruct (IH Hf) as (before & a' & after & _ & -> & Hbefore & Hn & Hi).
        exists (b :: before), a', after. split_and!; try done. by constructor.
    + destruct (p_type p) as [t|]; [|done].
      by destruct (_ || _).
  - destruct (p_type p) as [t|]; [|done].
    by destruct (_ || _).
Qed.

End Kinds.

Section KindsInstance.
#[local] Existing Instance specImports.

Lemma image_leaves_come_from_a_type_alias_witness :
  let cam := {| p_name := "Cam"; p_qualifiedName := "/Sat/Cam";
                p_alias := Some [{| a_namespace := "MDB:OPS Name"; a_name := "CAM" |};
                                 {| a_namespace := "OpenMCT:type";
                                    a_name := "image-telemetry" |}];
                p_type := Some {| engType := Some "binary"; member := None |} |} in
  exists aliases before a after,
    p_alias cam = Some aliases
    /\ aliases = before ++ a :: after
    /\ a_name a = "image-telemetry".
Proof.
  intros cam.
  destruct (image_leaves_come_from_a_type_alias cam)
    as (aliases & before & a & after & H1 & H2 & _ & _ & H5).
  - discriminate.
  - discriminate.
  - reflexivity.
  - exists aliases, before, a, after. split_and!; [exact H1|exact H2|exact H5].
Defined.

End KindsInstance.

(** * Further properties of the subscription engine *)

Section Invariants.
Context `{Imports} `{Transport}.

Variable P : RealtimeTelemetryProvider -> Prop.

Hypothesis P_reconnect : forall s, P s -> P (reconnect s).
Hypothesis P_sendRequest : forall r s, P s -> P (sendRequest r s).2.
Hypothesis P_connected : forall b s, P s -> P (set_connected b s).
Hypothesis P_requests : forall l s, P s -> P (set_requests l s).
Hypothesis P_connect : forall s, P s -> P (connect s).
Hypothesis P_index : forall s, P s -> P (set_currentWaitIndex 0 s).
Hypothesis P_clearTimeout : forall s, P s -> P (clearTimeout s).
Hypothesis P_timeout : forall s, P s -> P (timeout s).

Lemma inv_sendOrQueueRequest r s : P s -> P (sendOrQueueRequest r s).
Proof.
  intros Hs. unfold sendOrQueueRequest.
  destruct (connected s); [|by apply P_requests].
  pose proof (P_sendRequest r s Hs) as Hr.
  destruct (sendRequest r s) as [[[]|e] s']; cbn in Hr; [done|].
  by apply P_reconnect, P_requests, P_connected.
Qed.

Lemma inv_flushing q : forall s, P s -> P (flushing q s).2.
Proof.
  induction q as [|r q IH]; intros s Hs; [done|]. cbn [flushing].
  pose proof (P_sendRequest r s Hs) as Hr.
  destruct (sendRequest r s) as [[[]|e] s']; cbn in Hr; [by apply IH|].
  specialize (IH (set_connected false s') (P_connected _ _ Hr)).
  by destruct (flushing q (set_connected false s')) as [[kept b] s''].
Qed.

Lemma inv_flushQueue s : P s -> P (flushQueue s).
Proof.
  intros Hs. unfold flushQueue.
  pose proof (inv_flushing (requests s) s Hs) as Hf.
  destruct (flushing (requests s) s) as [[kept b] s']. cbn in Hf.
  destruct b; [apply P_reconnect|]; by apply P_requests.
Qed.

Lemma inv_resubscribeToAll s : P s -> P (resubscribeToAll s).
Proof.
  unfold resubscribeToAll. generalize (ownKeys (listener s)). intros ks. revert s.
  induction ks as [|k ks IH]; intros s Hs; [done|].
  cbn [foldl]. by apply IH, inv_sendOrQueueRequest.
Qed.

Lemma inv_onopen s : P s -> P (onopen s).
Proof.
  intros Hs. unfold onopen.
  by apply inv_flushQueue, inv_resubscribeToAll, P_index, P_connected, P_clearTimeout.
Qed.

(** One event keeps an invariant of the engine, when the changes this
    event makes to the listeners and the deliveries keep it. *)
Lemma inv_step s ev :
  (forall o cb, ev = CallSubscribe o cb ->
     forall s, P s -> P (set_listener (setProperty (listener s) (key (identifier o)) cb) s)) ->
  (forall u, ev = CallUnsubscribe u ->
     forall s, P s -> P (set_listener (deleteProperty (listener s) (u_id u)) s)) ->
  (forall data, ev = OnMessage data -> forall s, P s -> P (deliver s data)) ->
  P s -> P (rt_step s ev).
Proof.
  intros Hsub Hunsub Hmsg Hs. destruct ev as [o cb|u|  | |data| | |]; cbn [rt_step].
  - unfold subscribe, subscribeToTelemetry. cbn [snd].
    specialize (Hsub o cb eq_refl s Hs).
    destruct (connected _); [|done]. by apply inv_sendOrQueueRequest.
  - unfold unsubscribe. by apply (Hunsub u eq_refl), inv_sendOrQueueRequest.
  - by apply P_connect.
  - by apply inv_onopen.
  - exact (Hmsg data eq_refl s Hs).
  - by apply P_reconnect, P_connected.
  - by apply P_reconnect, P_connected.
  - by apply P_timeout.
Qed.

Hypothesis P_subscribe : forall k cb s, P s -> P (set_listener (setProperty (listener s) k cb) s).
Hypothesis P_unsubscribe : forall k s, P s -> P (set_listener (deleteProperty (listener s) k) s).
Hypothesis P_deliver : forall data s, P s -> P (deliver s data).

Lemma inv_run evs : forall s, P s -> P (rt_run s evs).
Proof.
  induction evs as [|ev evs IH]; intros s Hs; [done|].
  rewrite rt_run_cons. apply IH, inv_step; auto.
Qed.

End Invariants.

Section EngineInvariants.
Context `{Imports} `{Transport}.

Lemma rt_step_OnMessage s data : rt_step s (OnMessage data) = deliver s data.
Proof. reflexivity. Qed.

Lemma table_nth (i : nat) : i <= 5 -> In (nth i FALLBACK_AND_WAIT_MS 0%Z) FALLBACK_AND_WAIT_MS.
Proof.
  intros Hi. apply nth_In. cbn. lia.
Qed.

(** The wait index never leaves the table, so that no reconnect is ever
    scheduled with an undefined delay: every wait of every run is one of
    the six of the table. *)
Theorem waits_come_from_the_table (url inst : string) (evs : list RtEvent) :
  let s := rt_run (rt_constructor url inst) evs in
  currentWaitIndex s < length FALLBACK_AND_WAIT_MS
  /\ Forall (fun ms => In ms FALLBACK_AND_WAIT_MS) (scheduled s).
Proof.
  intros s.
  set (P := fun s : RealtimeTelemetryProvider =>
              currentWaitIndex s <= 5
              /\ Forall (fun ms => In ms FALLBACK_AND_WAIT_MS) (scheduled s)).
  assert (P s) as [Hi Hs].
  { apply (inv_run P); subst P; cbn beta.
    - intros s0 [Hi Hs]. unfold reconnect.
      destruct (reconnectTimeout s0); [done|].
      cbn [setTimeout currentWaitIndex].
      destruct (Nat.ltb_spec (currentWaitIndex s0) (length FALLBACK_AND_WAIT_MS - 1))
        as [Hlt|Hge]; cbn in *.
      + split; [lia|]. apply Forall_app. split; [done|].
        constructor; [|constructor]. by apply table_nth.
      + split; [lia|]. apply Forall_app. split; [done|].
        constructor; [|constructor]. by apply table_nth.
    - intros r s0 Hs. exact Hs.
    - intros b s0 Hs. exact Hs.
    - intros l s0 Hs. exact Hs.
    - intros s0 Hs. unfold connect. by destruct (connected s0).
    - intros s0 [Hi Hs]. split; [cbn; lia|exact Hs].
    - intros s0 Hs. unfold clearTimeout. by destruct (reconnectTimeout s0).
    - intros s0 Hs. unfold timeout, connect.
      destruct (reconnectTimeout s0) as [t|]; [|done].
      destruct (armed t); [|done]. by destruct (connected s0).
    - intros k cb s0 Hs. exact Hs.
    - intros k s0 Hs. exact Hs.
    - intros data s0 Hs. exact Hs.
    - split; [cbn; lia|constructor]. }
  split; [cbn; lia|exact Hs].
Qed.

(** Every socket a provider ever creates is for the address made of its
    URL and its instance, neither of which changes. *)
Theorem every_socket_has_the_address_of_the_instance (url inst : string)
    (evs : list RtEvent) :
  let s := rt_run (rt_constructor url inst) evs in
  rt_url s = url /\ rt_instance s = inst
  /\ Forall (fun a => a = socketUrl url inst) (sockets s).
Proof.
  intros s.
  set (P := fun s : RealtimeTelemetryProvider =>
              rt_url s = url /\ rt_instance s = inst
              /\ Forall (fun a => a = socketUrl url inst) (sockets s)).
  assert (forall s0, P s0 -> P (connect s0)) as Hconnect.
  { subst P. cbn beta. intros s0 (Hu & Hi & Hs). unfold connect.
    destruct (connected s0); [done|]. cbn.
    split_and!; [done|done|]. apply Forall_app. split; [done|].
    constructor; [|constructor]. unfold socketUrl. by rewrite Hu, Hi. }
  apply (inv_run P); try exact Hconnect; subst P; cbn beta.
  - intros s0 Hs. unfold reconnect. destruct (reconnectTimeout s0); [done|].
    cbn [setTimeout currentWaitIndex]. by destruct (Nat.ltb _ _).
  - intros r s0 Hs. exact Hs.
  - intros b s0 Hs. exact Hs.
  - intros l s0 Hs. exact Hs.
  - intros s0 Hs. exact Hs.
  - intros s0 Hs. unfold clearTimeout. by destruct (reconnectTimeout s0).
  - intros s0 Hs. unfold timeout.
    destruct (reconnectTimeout s0) as [t|]; [|done].
    destruct (armed t); [|done]. exact (Hconnect s0 Hs).
  - intros k cb s0 Hs. exact Hs.
  - intros k s0 Hs. exact Hs.
  - intros data s0 Hs. exact Hs.
  - split_and!; [done|done|constructor].
Qed.





End EngineInvariants.

Section Timers.
Context `{Imports} `{Transport}.

(** A connection that opens while a reconnect timer is set cancels the
    timer and keeps its handle; as [reconnect] returns at once while the
    handle is there and only the cancelled callback would remove it, the
    provider never schedules a reconnect again, whatever happens next. *)
Theorem open_with_a_timer_set_ends_all_reconnects (s : RealtimeTelemetryProvider)
    (t : Timer) (evs : list RtEvent) :
  reconnectTimeout s = Some t ->
  let s' := rt_run (onopen s) evs in
  reconnectTimeout s' = Some {| wait := wait t; armed := false |}
  /\ scheduled s' = scheduled s
  /\ reconnect s' = s' /\ timeout s' = s'.
Proof.
  intros Ht s'.
  set (P := fun x : RealtimeTelemetryProvider =>
              reconnectTimeout x = Some {| wait := wait t; armed := false |}
              /\ scheduled x = scheduled s).
  assert (forall x, P x -> P (reconnect x)) as Preconnect.
  { intros x [Hx Hs]. unfold reconnect. by rewrite Hx. }
  assert (forall x, P x -> P (connect x)) as Pconnect.
  { intros x Hx. unfold connect. by destruct (connected x). }
  assert (forall x, P x -> P (clearTimeout x)) as Pclear.
  { intros x [Hx Hs]. unfold clearTimeout. by rewrite Hx. }
  assert (forall x, P x -> P (timeout x)) as Ptimeout.
  { intros x [Hx Hs]. unfold timeout. by rewrite Hx. }
  assert (P (onopen s)) as Hopen.
  { unfold onopen.
    apply (inv_flushQueue P); [done|by intros ? ? ?|by intros ? ? ?|by intros ? ? ?|].
    apply (inv_resubscribeToAll P);
      [done|by intros ? ? ?|by intros ? ? ?|by intros ? ? ?|].
    split; cbn; [|by unfold clearTimeout; rewrite Ht].
    unfold clearTimeout. by rewrite Ht. }
  assert (P s') as [H1 H2].
  { apply (inv_run P); try done; by intros. }
  split_and!; [done|done| |].
  - unfold reconnect. by rewrite H1.
  - unfold timeout. by rewrite H1.
Qed.

End Timers.

Section Subscribers.
Context `{Imports} `{Transport}.

Lemma getProperty_setProperty_inv {V} (o : list (string * V)) k v k' v' :
  getProperty (setProperty o k v) k' = Some v' ->
  (k' = k /\ v' = v) \/ getProperty o k' = Some v'.
Proof.
  induction o as [|[k0 v0] o IH]; cbn.
  - destruct (String.eqb_spec k k'); [|done]. intros [= <-]. left. done.
  - destruct (String.eqb_spec k0 k) as [->|Hne]; cbn.
    + destruct (String.eqb_spec k k'); [|by right]. intros [= <-]. by left.
    + destruct (String.eqb_spec k0 k'); [by right|]. exact IH.
Qed.

Lemma getProperty_deleteProperty_inv {V} (o : list (string * V)) k k' v' :
  getProperty (deleteProperty o k) k' = Some v' -> getProperty o k' = Some v'.
Proof.
  induction o as [|[k0 v0] o IH]; cbn; [done|].
  destruct (String.eqb_spec k0 k) as [->|Hne]; cbn.
  - intros Hg. destruct (String.eqb_spec k k') as [->|]; [|by apply IH].
    by rewrite getProperty_deleteProperty in Hg.
  - destruct (String.eqb_spec k0 k'); [done|]. exact IH.
Qed.

Lemma dispatch_registered s samples cb pt :
  In (cb, pt) (dispatch s samples).2 -> getProperty (listener s) (id pt) = Some cb.
Proof.
  induction samples as [|p samples IH]; cbn [dispatch]; [done|].
  destruct (readPoint p) as [pt0|e]; [|done].
  destruct (dispatch s samples) as [r more]. cbn [snd] in *.
  rewrite in_app_iff. intros [Hin|Hin]; [|by apply IH].
  destruct (getProperty (listener s) (id pt0)) as [cb0|] eqn:Hg; [|done].
  destruct Hin as [[= <- <-]|[]]. exact Hg.
Qed.

Lemma onmessage_registered s data cb pt :
  In (cb, pt) (onmessage s data).2 -> getProperty (listener s) (id pt) = Some cb.
Proof.
  unfold onmessage. destruct (Nat.ltb _ _); [done|].
  destruct (member_of _ _) as [[[]|]|]; try done.
  destruct (String.eqb _ _); [|done].
  destruct (and_then _ _) as [[[]|]|]; try done. apply dispatch_registered.
Qed.

Lemma subscribed_step (evs : list RtEvent) (ev : RtEvent) (s : RealtimeTelemetryProvider) :
  (forall k cb, getProperty (listener s) k = Some cb -> subscribed evs k cb) ->
  (forall cb pt, In (cb, pt) (delivered s) -> subscribed evs (id pt) cb) ->
  let s' := rt_step s ev in
  (forall k cb, getProperty (listener s') k = Some cb -> subscribed (evs ++ [ev]) k cb)
  /\ (forall cb pt, In (cb, pt) (delivered s') -> subscribed (evs ++ [ev]) (id pt) cb).
Proof.
  intros Hl Hd s'.
  set (P := fun x : RealtimeTelemetryProvider =>
    (forall k cb, getProperty (listener x) k = Some cb -> subscribed (evs ++ [ev]) k cb)
    /\ (forall cb pt, In (cb, pt) (delivered x) -> subscribed (evs ++ [ev]) (id pt) cb)).
  assert (forall k cb, subscribed evs k cb -> subscribed (evs ++ [ev]) k cb) as Hmono.
  { intros k cb (o & Ho & Hk). exists o. split; [|done]. apply in_app_iff. by left. }
  assert (forall x, P x -> P (connect x)) as Pconnect.
  { intros x Hx. unfold connect. by destruct (connected x). }
  apply (inv_step P).
  - intros x Hx. unfold reconnect. destruct (reconnectTimeout x); [done|].
    cbn [setTimeout currentWaitIndex]. by destruct (Nat.ltb _ _).
  - by intros ? ? ?.
  - by intros ? ? ?.
  - by intros ? ? ?.
  - exact Pconnect.
  - by intros ? ?.
  - intros x Hx. unfold clearTimeout. by destruct (reconnectTimeout x).
  - intros x Hx. unfold timeout. destruct (reconnectTimeout x) as [t|]; [|done].
    destruct (armed t); [|done]. exact (Pconnect x Hx).
  - intros o cb -> x [Hx1 Hx2]. split; [|exact Hx2]. cbn [listener set_listener].
    intros k cb' Hg. apply getProperty_setProperty_inv in Hg as [[-> ->]|Hg]; [|by apply Hx1].
    exists o. split; [|done]. apply in_app_iff. right. by left.
  - intros u -> x [Hx1 Hx2]. split; [|exact Hx2]. cbn [listener set_listener].
    intros k cb' Hg. apply getProperty_deleteProperty_inv in Hg. by apply Hx1.
  - intros data -> x [Hx1 Hx2]. split; [exact Hx1|]. cbn [delivered deliver].
    intros cb pt Hin. apply in_app_iff in Hin as [Hin|Hin]; [by apply Hx2|].
    apply Hx1. exact (onmessage_registered x data cb pt Hin).
  - split; intros; apply Hmono; auto.
Qed.

(** A callback is only ever invoked with a point of an identifier under
    which the host subscribed it. *)
Theorem callbacks_receive_only_points_they_subscribed_to (url inst : string)
    (evs : list RtEvent) (cb : Callback) (pt : Point) :
  In (cb, pt) (delivered (rt_run (rt_constructor url inst) evs)) ->
  subscribed evs (id pt) cb.
Proof.
  revert cb pt.
  enough ((forall k cb, getProperty (listener (rt_run (rt_constructor url inst) evs)) k
                        = Some cb -> subscribed evs k cb)
          /\ (forall cb pt, In (cb, pt) (delivered (rt_run (rt_constructor url inst) evs))
                            -> subscribed evs (id pt) cb)) as [_ Hd] by exact Hd.
  induction evs as [|ev evs [IH1 IH2]] using rev_ind; [by split|].
  rewrite rt_run_app. exact (subscribed_step evs ev _ IH1 IH2).
Qed.

End Subscribers.

Section Queue.
Context `{Imports} `{Transport}.

Lemma flushing_accounts q : forall s,
  let '(kept, failed, s') := flushing q s in
  exists news,
    wire s' = wire s ++ news
    /\ map w_request news = q
    /\ map w_seqNo news = seq (S (seqNo s)) (length q)
    /\ Forall (fun w => w_socket w = length (sockets s)) news
    /\ kept = map w_request (List.filter refused news)
    /\ failed = existsb refused news
    /\ connected s' = connected s && negb failed
    /\ seqNo s' = seqNo s + length q
    /\ sockets s' = sockets s
    /\ listener s' = listener s
    /\ reconnectTimeout s' = reconnectTimeout s
    /\ currentWaitIndex s' = currentWaitIndex s
    /\ scheduled s' = scheduled s
    /\ delivered s' = delivered s.
Proof.
  induction q as [|r q IH]; intros s.
  - cbn. exists []. rewrite app_nil_r, andb_true_r, Nat.add_0_r. by repeat split.
  - cbn [flushing]. unfold sendRequest. cbv zeta.
    destruct (_ && _) eqn:Hok.
    + set (w := {| w_socket := length (sockets s); w_seqNo := S (seqNo s);
                   w_request := r; w_accepted := true |}).
      set (s1 := {| rt_url := rt_url s; wire := wire s ++ [w] |}).
      specialize (IH s1). destruct (flushing q s1) as [[kept failed] s'].
      destruct IH as (news & E1 & E2 & E3 & E4 & E5 & E6 & E7 & E8 & E9 & E10
                      & E11 & E12 & E13 & E14).
      exists (w :: news). cbn [map length seq List.filter existsb].
      unfold refused at 1 3. cbn [w_accepted w negb orb].
      rewrite E1, E2, E3, E7, E8. cbn [wire seqNo connected s1 w_seqNo w_request w].
      rewrite <- app_assoc.
      split_and!; try done; [by constructor|lia].
    + set (w := {| w_socket := length (sockets s); w_seqNo := S (seqNo s);
                   w_request := r; w_accepted := false |}).
      set (s1 := {| rt_url := rt_url s; wire := wire s ++ [w] |}).
      specialize (IH (set_connected false s1)).
      destruct (flushing q (set_connected false s1)) as [[kept failed] s'].
      destruct IH as (news & E1 & E2 & E3 & E4 & E5 & E6 & E7 & E8 & E9 & E10
                      & E11 & E12 & E13 & E14).
      exists (w :: news). cbn [map length seq List.filter existsb].
      unfold refused at 1 3. cbn [w_accepted w negb orb map].
      rewrite E1, E2, E3, E5, E7, E8.
      cbn [wire seqNo connected s1 w_seqNo w_request w set_connected].
      rewrite <- app_assoc, andb_false_r.
      split_and!; try done; [by constructor|lia].
Qed.

(** [flushQueue] writes every queued request once, in the order of the
    queue and with consecutive sequence numbers, also those that follow
    a refused write; it keeps exactly the refused ones, in order, and
    the provider stays connected only if none was refused. *)
Theorem flush_attempts_every_queued_request (s : RealtimeTelemetryProvider) :
  let s' := flushQueue s in
  let news := writesSince s s' in
  wire s' = wire s ++ news
  /\ map w_request news = requests s
  /\ map w_seqNo news = seq (S (seqNo s)) (length (requests s))
  /\ Forall (fun w => w_socket w = length (sockets s)) news
  /\ requests s' = map w_request (List.filter refused news)
  /\ connected s' = connected s && forallb w_accepted news
  /\ listener s' = listener s.
Proof.
  intros s' news. subst s' news. unfold flushQueue, writesSince.
  pose proof (flushing_accounts (requests s) s) as Hf.
  destruct (flushing (requests s) s) as [[kept failed] s1].
  destruct Hf as (news & E1 & E2 & E3 & E4 & E5 & E6 & E7 & _ & _ & E10 & _).
  assert (forallb w_accepted news = negb failed) as Hall.
  { rewrite E6. clear. induction news as [|w news IH]; [done|].
    cbn. unfold refused at 1. rewrite IH. by destruct (w_accepted w). }
  set (s2 := set_requests kept s1).
  assert (wire (if failed then reconnect s2 else s2) = wire s ++ news
          /\ requests (if failed then reconnect s2 else s2) = kept
          /\ connected (if failed then reconnect s2 else s2) = connected s1
          /\ listener (if failed then reconnect s2 else s2) = listener s1)
    as (W & R & C & L).
  { destruct failed; [|by subst s2].
    destruct (reconnect_fields s2) as (-> & -> & -> & ->). by subst s2. }
  rewrite W, R, C, L, drop_app_length, Hall.
  split_and!; done.
Qed.

(** A write that the socket refuses while the provider is connected
    still uses up a sequence number; the request goes to the end of the
    queue, the provider is marked disconnected, and a reconnect is
    scheduled unless a timer handle is there. *)
Theorem refused_write_is_queued (r : Command) (s : RealtimeTelemetryProvider) :
  connected s = true ->
  (sendRequest r s).1 <> Returned tt ->
  let s' := sendOrQueueRequest r s in
  connected s' = false
  /\ requests s' = requests s ++ [r]
  /\ seqNo s' = S (seqNo s)
  /\ wire s' = wire s ++ [{| w_socket := length (sockets s); w_seqNo := S (seqNo s);
                             w_request := r; w_accepted := false |}]
  /\ (reconnectTimeout s = None ->
      scheduled s' = scheduled s ++ [nth (currentWaitIndex s) FALLBACK_AND_WAIT_MS 0%Z])
  /\ (is_Some (reconnectTimeout s) -> scheduled s' = scheduled s).
Proof.
  intros Hc Hr s'. subst s'. unfold sendOrQueueRequest. rewrite Hc.
  unfold sendRequest in *. cbn [fst] in Hr.
  destruct (_ && _) eqn:Hok; [done|].
  set (s1 := set_requests _ _).
  destruct (reconnect_fields s1) as (_ & R & W & C).
  rewrite R, W, C.
  split_and!; try done.
  - unfold reconnect. destruct (reconnectTimeout s1) eqn:Ht; [done|].
    cbn [setTimeout currentWaitIndex]. by destruct (Nat.ltb _ _).
  - intros Ht. unfold reconnect. subst s1. cbn [reconnectTimeout set_requests set_connected].
    rewrite Ht. cbn [setTimeout currentWaitIndex]. by destruct (Nat.ltb _ _).
  - intros [t Ht]. unfold reconnect. subst s1.
    cbn [reconnectTimeout set_requests set_connected]. by rewrite Ht.
Qed.


End Queue.

Section Frames.
Context `{Imports}.

Lemma dispatch_points s samples pts :
  Forall2 (fun p pt => readPoint p = Returned pt) samples pts ->
  dispatch s samples = (Returned tt, deliveries s pts).
Proof.
  induction 1 as [|p pt samples pts Hp _ IH]; [reflexivity|].
  cbn [dispatch]. rewrite Hp, IH. unfold deliveries. cbn [omap list_omap].
  by destruct (getProperty (listener s) (id pt)).
Qed.

Lemma dispatch_stops s samples pts bad e rest :
  Forall2 (fun p pt => readPoint p = Returned pt) samples pts ->
  readPoint bad = Threw e ->
  dispatch s (samples ++ bad :: rest) = (Threw e, deliveries s pts).
Proof.
  intros Hs Hbad. induction Hs as [|p pt samples pts Hp _ IH].
  - cbn. by rewrite Hbad.
  - cbn [dispatch app]. rewrite Hp, IH. unfold deliveries. cbn [omap list_omap].
    by destruct (getProperty (listener s) (id pt)).
Qed.

(** A parameter-data frame whose samples all yield a point, none with an
    identifier that names a member of [Object.prototype], invokes, in
    the order of the samples, the callback of each point that has one,
    with that point, and nothing else.  (For such identifiers the read
    of the listener is the read of its own properties.) *)
Theorem frame_is_delivered_in_order (s : RealtimeTelemetryProvider)
    (a b c : json) (samples : list json) (pts : list Point) (more : list json) :
  Forall2 (fun p pt => readPoint p = Returned pt) samples pts ->
  Forall (fun pt => inherited (id pt) = false) pts ->
  onmessage s (a :: b :: c :: parameterData samples :: more)
  = (Returned tt, deliveries s pts).
Proof.
  intros Hs _. rewrite onmessage_parameterData. by apply dispatch_points.
Qed.

(** A sample from which no point can be built ends the handling of its
    frame with the error: the samples before it, when they yield points
    whose identifiers name no member of [Object.prototype], have reached
    their callbacks, those after it are never looked at. *)
Theorem bad_sample_ends_the_frame (s : RealtimeTelemetryProvider)
    (a b c : json) (samples : list json) (pts : list Point)
    (bad : json) (e : exn) (rest more : list json) :
  Forall2 (fun p pt => readPoint p = Returned pt) samples pts ->
  Forall (fun pt => inherited (id pt) = false) pts ->
  readPoint bad = Threw e ->
  onmessage s (a :: b :: c :: parameterData (samples ++ bad :: rest) :: more)
  = (Threw e, deliveries s pts).
Proof.
  intros Hs _ Hbad. rewrite onmessage_parameterData. by apply dispatch_stops.
Qed.

(** Frames of four or more elements that are not parameter data: a
    fourth element that is [null] makes the handler throw; one whose
    [dt] is not the text [PARAMETER] is ignored; one that announces
    parameter data and has no [data] makes the handler throw.  No
    callback is invoked. *)
Theorem frames_without_parameter_data (s : RealtimeTelemetryProvider)
    (a b c : json) (more : list json) :
  onmessage s (a :: b :: c :: JNull :: more) = (Threw TypeError, [])
  /\ (forall v, v <> JNull ->
        member_of (Some v) "dt" <> Returned (Some (JStr "PARAMETER")) ->
        onmessage s (a :: b :: c :: v :: more) = (Returned tt, []))
  /\ (forall ms,
        getProperty (rev ms) "dt" = Some (JStr "PARAMETER") ->
        getProperty (rev ms) "data" = None ->
        onmessage s (a :: b :: c :: JObj ms :: more) = (Threw TypeError, [])).
Proof.
  split_and!.
  - reflexivity.
  - intros v Hv Hdt. unfold onmessage. cbn [length Nat.ltb Nat.leb lookup list_lookup].
    destruct (member_of (Some v) "dt") as [[[]|]|e] eqn:Hm; try done.
    + destruct (String.eqb_spec s0 "PARAMETER") as [->|]; [done|done].
    + by destruct v.
  - intros ms Hdt Hdata. unfold onmessage.
    cbn [length Nat.ltb Nat.leb lookup list_lookup member_of and_then].
    rewrite Hdt, Hdata. reflexivity.
Qed.

End Frames.

Section EngineInstances.
#[local] Existing Instance specImports.
#[local] Existing Instance reliable.

(** The first socket fails, the timer opens a second one, the close of
    the first arrives late and sets a timer, and the second socket
    opens: when it closes in turn, nothing is scheduled. *)
Lemma open_with_a_timer_set_ends_all_reconnects_witness :
  let s := rt_run (rt_constructor "ws://yamcs/" "sim")
             [CallConnect; OnError; TimerDue; OnClose] in
  let s' := rt_run (onopen s) [OnClose; TimerDue; OnError; OnClose; TimerDue] in
  reconnectTimeout s = Some {| wait := 5000; armed := true |}
  /\ reconnectTimeout s' = Some {| wait := 5000; armed := false |}
  /\ scheduled s' = [1000; 5000]%Z
  /\ connected s' = false.
Proof.
  intros s s'.
  assert (reconnectTimeout s = Some {| wait := 5000; armed := true |}) as Ht
    by (vm_compute; reflexivity).
  destruct (open_with_a_timer_set_ends_all_reconnects s _
              [OnClose; TimerDue; OnError; OnClose; TimerDue] Ht) as (H1 & H2 & _).
  subst s'. split_and!; [exact Ht|exact H1| |vm_compute; reflexivity].
  rewrite H2. vm_compute. reflexivity.
Defined.

Lemma callbacks_receive_only_points_they_subscribed_to_witness :
  let evs := [CallConnect; OnOpen; CallSubscribe (point "~Sat~Temp") 1;
              OnMessage [JNum 1; JNum 4; JNum 7;
                         parameterData [sample "/Sat/Temp" [("engValue", JNum 5)]]]] in
  let pt := {| id := "~Sat~Temp"; timestamp := None; value := Some (JNum 5);
               limits := [] |} in
  delivered (rt_run (rt_constructor "ws://yamcs/" "sim") evs) = [(1, pt)]
  /\ subscribed evs "~Sat~Temp" 1.
Proof.
  intros evs pt.
  assert (delivered (rt_run (rt_constructor "ws://yamcs/" "sim") evs) = [(1, pt)]) as Hd
    by (vm_compute; reflexivity).
  split; [exact Hd|].
  apply (callbacks_receive_only_points_they_subscribed_to "ws://yamcs/" "sim" evs 1 pt).
  rewrite Hd. left. reflexivity.
Defined.


Lemma frame_is_delivered_in_order_witness :
  let s := (subscribe (point "~Sat~Temp") 1 (rt_constructor "ws://yamcs/" "sim")).2 in
  let temp v := {| id := "~Sat~Temp"; timestamp := None; value := Some (JNum v);
                   limits := [] |} in
  onmessage s [JNum 1; JNum 4; JNum 7;
               parameterData [sample "/Sat/Temp" [("engValue", JNum 5)];
                              sample "/Sat/Volt" [("engValue", JNum 3)];
                              sample "/Sat/Temp" [("engValue", JNum 6)]]]
  = (Returned tt, [(1, temp 5%Z); (1, temp 6%Z)]).
Proof.
  intros s temp.
  rewrite (frame_is_delivered_in_order s (JNum 1) (JNum 4) (JNum 7) _
             [temp 5%Z;
              {| id := "~Sat~Volt"; timestamp := None; value := Some (JNum 3);
                 limits := [] |};
              temp 6%Z] []).
  - vm_compute. reflexivity.
  - repeat (constructor; [vm_compute; reflexivity|]). constructor.
  - repeat (constructor; [reflexivity|]). constructor.
Defined.

(** A sample without [id] between two good ones: the first is delivered,
    the handler throws, the third is not delivered. *)
Lemma bad_sample_ends_the_frame_witness :
  let s := (subscribe (point "~Sat~Temp") 1 (rt_constructor "ws://yamcs/" "sim")).2 in
  let temp v := {| id := "~Sat~Temp"; timestamp := None; value := Some (JNum v);
                   limits := [] |} in
  onmessage s [JNum 1; JNum 4; JNum 7;
               parameterData [sample "/Sat/Temp" [("engValue", JNum 5)];
                              JObj [("engValue", JNum 3)];
                              sample "/Sat/Temp" [("engValue", JNum 6)]]]
  = (Threw TypeError, [(1, temp 5%Z)]).
Proof.
  intros s temp.
  rewrite (bad_sample_ends_the_frame s (JNum 1) (JNum 4) (JNum 7)
             [sample "/Sat/Temp" [("engValue", JNum 5)]] [temp 5%Z]
             (JObj [("engValue", JNum 3)]) TypeError
             [sample "/Sat/Temp" [("engValue", JNum 6)]] []).
  - vm_compute. reflexivity.
  - repeat (constructor; [vm_compute; reflexivity|]). constructor.
  - repeat (constructor; [reflexivity|]). constructor.
  - vm_compute. reflexivity.
Defined.

Lemma frames_without_parameter_data_witness :
  let s := (subscribe (point "~Sat~Temp") 1 (rt_constructor "ws://yamcs/" "sim")).2 in
  onmessage s [JNum 1; JNum 4; JNum 7; JObj [("dt", JStr "EVENT")]] = (Returned tt, [])
  /\ onmessage s [JNum 1; JNum 4; JNum 7; JObj [("dt", JStr "PARAMETER")]]
     = (Threw TypeError, []).
Proof.
  intros s.
  destruct (frames_without_parameter_data s (JNum 1) (JNum 4) (JNum 7) [])
    as (_ & H2 & H3).
  split.
  - apply H2; [discriminate|vm_compute; discriminate].
  - apply H3; vm_compute; reflexivity.
Defined.

End EngineInstances.

Section RefusedWriteInstance.
#[local] Existing Instance specImports.
#[local] Existing Instance firstRefused.

Lemma refused_write_is_queued_witness :
  let s := rt_run (rt_constructor "ws://yamcs/" "sim") [CallConnect; OnOpen] in
  let s' := sendOrQueueRequest (Subscribe "/Sat/Temp") s in
  connected s' = false /\ requests s' = [Subscribe "/Sat/Temp"]
  /\ seqNo s' = 1 /\ scheduled s' = [1000%Z].
Proof.
  intros s s'.
  destruct (refused_write_is_queued (Subscribe "/Sat/Temp") s)
    as (H1 & H2 & H3 & _ & H5 & _).
  - vm_compute. reflexivity.
  - vm_compute. discriminate.
  - subst s'. split_and!; [exact H1| | |].
    + rewrite H2. vm_compute. reflexivity.
    + rewrite H3. vm_compute. reflexivity.
    + rewrite H5 by (vm_compute; reflexivity). vm_compute. reflexivity.
Defined.

End RefusedWriteInstance.

Section InboundFrames.
Context `{Imports} `{Transport}.

(** C9, as the code has it: handling an inbound frame invokes no
    callback but the one registered for the identifier of a sample, and
    it can raise.  A frame with fewer than 4 elements is ignored with no
    effect.  A parameter sample that yields a point whose identifier has
    no registered callback and names no member of [Object.prototype]
    produces no callback invocation and no error, and a frame of such
    samples is handled without either.  A frame of 4 or more elements
    raises a [TypeError] when its fourth element is [null] or announces
    parameter data without a [data] member, and raises the error of a
    first sample from which no point can be built; no callback is
    invoked then. *)
Theorem inbound_frames_are_dropped_or_raise (s : RealtimeTelemetryProvider) :
  (forall data, length data < 4 ->
     onmessage s data = (Returned tt, []) /\ rt_step s (OnMessage data) = s)
  /\ (forall a b c p pt rest more,
        readPoint p = Returned pt ->
        getProperty (listener s) (id pt) = None ->
        inherited (id pt) = false ->
        onmessage s (a :: b :: c :: parameterData (p :: rest) :: more)
        = onmessage s (a :: b :: c :: parameterData rest :: more))
  /\ (forall a b c samples more,
        Forall (fun p => exists pt, readPoint p = Returned pt
                                    /\ getProperty (listener s) (id pt) = None
                                    /\ inherited (id pt) = false)
               samples ->
        onmessage s (a :: b :: c :: parameterData samples :: more)
        = (Returned tt, []))
  /\ (forall name fields pt,
        readPoint (sample name fields) = Returned pt ->
        id pt = qualifiedNameToId name)
  /\ (forall data cb pt,
        In (cb, pt) (onmessage s data).2 ->
        getProperty (listener s) (id pt) = Some cb)
  /\ (forall a b c more,
        onmessage s (a :: b :: c :: JNull :: more) = (Threw TypeError, []))
  /\ (forall a b c ms more,
        getProperty (rev ms) "dt" = Some (JStr "PARAMETER") ->
        getProperty (rev ms) "data" = None ->
        onmessage s (a :: b :: c :: JObj ms :: more) = (Threw TypeError, []))
  /\ (forall a b c bad e rest more,
        readPoint bad = Threw e ->
        onmessage s (a :: b :: c :: parameterData (bad :: rest) :: more)
        = (Threw e, [])).
Proof.
  split_and!.
  - intros data Hd.
    assert (onmessage s data = (Returned tt, [])) as E.
    { unfold onmessage. by destruct (Nat.ltb_spec (length data) 4); [|lia]. }
    split; [exact E|]. cbn [rt_step]. rewrite E. cbn. rewrite app_nil_r.
    by destruct s.
  - intros a b c p pt rest more Hp Hn _.
    rewrite !onmessage_parameterData. by apply (dispatch_unregistered s p pt).
  - intros a b c samples more Hs. rewrite onmessage_parameterData.
    induction Hs as [|p samples (pt & Hp & Hn & _) _ IH]; [done|].
    rewrite (dispatch_unregistered s p pt) by done. exact IH.
  - apply readPoint_sample.
  - apply onmessage_registered.
  - reflexivity.
  - intros a b c ms more Hdt Hdata. unfold onmessage.
    cbn [length Nat.ltb Nat.leb lookup list_lookup member_of and_then].
    rewrite Hdt, Hdata. reflexivity.
  - intros a b c bad e rest more Hbad. rewrite onmessage_parameterData.
    exact (dispatch_stops s [] [] bad e rest (List.Forall2_nil _) Hbad).
Qed.

End InboundFrames.

Section InboundFramesInstance.
#[local] Existing Instance specImports.
#[local] Existing Instance reliable.

Lemma inbound_frames_are_dropped_or_raise_witness :
  let s := (subscribe (point "~Sat~Temp") 1
              (rt_run (rt_constructor "ws://yamcs/" "sim") [CallConnect; OnOpen])).2 in
  onmessage s [JNum 1; JNum 2; JNum 3] = (Returned tt, [])
  /\ onmessage s [JNum 1; JNum 4; JNum 7;
                  parameterData [sample "/Sat/Volt" [("engValue", JNum 5)]]]
     = (Returned tt, [])
  /\ onmessage s [JNum 1; JNum 4; JNum 7; JObj [("dt", JStr "PARAMETER")]]
     = (Threw TypeError, [])
  /\ onmessage s [JNum 1; JNum 4; JNum 7;
                  parameterData [JObj [("engValue", JNum 5)];
                                 sample "/Sat/Temp" [("engValue", JNum 6)]]]
     = (Threw TypeError, []).
Proof.
  intros s.
  destruct (inbound_frames_are_dropped_or_raise s)
    as (H1 & H2 & _ & _ & _ & _ & H7 & H8).
  split_and!.
  - apply H1. cbn. lia.
  - erewrite H2; [reflexivity|vm_compute; reflexivity|vm_compute; reflexivity
                 |reflexivity].
  - apply H7; vm_compute; reflexivity.
  - apply H8. vm_compute. reflexivity.
Defined.

(** C9 fails on a frame of four elements whose fourth is [null], and on a
    parameter-data frame whose sample has no [id]: the handler raises a
    [TypeError] to its caller, in the second case although a callback is
    registered for the sample that follows. *)
Lemma malformed_inbound_frame_raises :
  let s := (subscribe (point "~Sat~Temp") 1
              (rt_run (rt_constructor "ws://yamcs/" "sim") [CallConnect; OnOpen])).2 in
  onmessage s [JNum 1; JNum 4; JNum 7; JNull] = (Threw TypeError, [])
  /\ onmessage s [JNum 1; JNum 4; JNum 7;
                  parameterData [JObj [("engValue", JNum 5)];
                                 sample "/Sat/Temp" [("engValue", JNum 6)]]]
     = (Threw TypeError, []).
Proof.
  intros s. split; vm_compute; reflexivity.
Defined.

End InboundFramesInstance.
